(** * EV charging simulation: a shallow embedding of [lib/simulation]

    The engine under [lib/simulation] (random.ts, distributions.ts, ev.ts,
    chargepoint.ts, station.ts, statistics.ts, index.ts, config.ts) is
    translated function by function.

    Numbers.  A TypeScript [number] is an IEEE double.  The engine is
    embedded twice.  In the first embedding a fractional quantity (energy in
    kWh, power in kW, a probability, a random draw) is an exact rational [Q],
    compared with [==]: it is the program with its rounding left out, and
    what is proved of it is proved of the exact arithmetic.  In the second,
    [Double], the same functions compute on binary64 floats as the program
    does; it is evaluated where rounding decides.  The register of the random
    stream only ever holds integers below 2^53, where doubles are exact, so
    it is a [Z] in both; JavaScript's [%] truncates towards zero and is
    [Z.rem].

    Objects.  An [ElectricVehicle] is a heap object that the chargepoint
    reaches through a reference and mutates in place.  The store of vehicles
    is a [list], a reference is a position in it, [new ElectricVehicle]
    allocates at the end, and nothing is ever freed: the store of a finished
    run holds every vehicle the run created, in its final state.

    Logging ([_log], [_logSim], [console.log]) only prints and is left out,
    but for the one message whose evaluation can throw: [assignEV] on an
    occupied chargepoint reads [ev.id] before it returns.

    Callers.  The figures that [runSimulationAction] (app/actions.ts) and
    [runAndLogTask1Validation] derive from a finished run are in [Actions];
    the chart series of the action, which go through [Math.sin] and
    [toFixed], are not modelled. *)

From Stdlib Require Import ZArith QArith Qminmax Qround Lia Lqa String.
From Corelib Require Import PrimFloat FloatOps SpecFloat Uint63Axioms.
From stdpp Require Import base list.

Open Scope Q_scope.

(** ** Comparisons of [number]s as booleans *)

Definition Qltb (a b : Q) : bool := negb (Qle_bool b a).

Definition Qnat (n : nat) : Q := inject_Z (Z.of_nat n).

(** ** Exceptions

    The engine throws in one place ([new Error] in distributions.ts); reading
    a field of [undefined] would be a [TypeError]. *)

Inductive exn :=
| Error (message : string)
| TypeError.

Inductive result (A : Type) :=
| Ok (a : A)
| Throw (e : exn).
Arguments Ok {A} a.
Arguments Throw {A} e.

Definition bind {A B} (m : result A) (k : A -> result B) : result B :=
  match m with
  | Ok a => k a
  | Throw e => Throw e
  end.

Notation "'let*' p ':=' m 'in' k" := (bind m (fun p => k))
  (at level 10, p pattern, m at level 100, k at level 200).

(** ** config.ts *)

Module Config.

Definition POWER_PER_CHARGEPOINT_KW : Q := 11.
Definition DAYS_IN_YEAR : nat := 365.
Definition TICKS_PER_HOUR : nat := 4.
Definition HOURS_PER_DAY : nat := 24.
Definition TOTAL_TICKS_PER_YEAR : nat :=
  (DAYS_IN_YEAR * HOURS_PER_DAY * TICKS_PER_HOUR)%nat.
Definition KWH_PER_100KM : Q := 18.

Definition ARRIVAL_PROBABILITY_PER_HOUR_T1 : list Q :=
  [ 94 # 10000; 94 # 10000; 94 # 10000; 94 # 10000;
    94 # 10000; 94 # 10000; 94 # 10000; 94 # 10000;
    283 # 10000; 283 # 10000;
    566 # 10000; 566 # 10000; 566 # 10000;
    755 # 10000; 755 # 10000; 755 # 10000;
    1038 # 10000; 1038 # 10000; 1038 # 10000;
    472 # 10000; 472 # 10000; 472 # 10000;
    94 # 10000; 94 # 10000 ].

Record DemandDistributionItem := {
  value : Q;        (* km *)
  probability : Q
}.

Definition CHARGING_DEMAND_KM_DISTRIBUTION_T2 : list DemandDistributionItem :=
  [ {| value := 0;   probability := 3431 # 10000 |};
    {| value := 5;   probability := 49 # 1000 |};
    {| value := 10;  probability := 98 # 1000 |};
    {| value := 20;  probability := 1176 # 10000 |};
    {| value := 30;  probability := 882 # 10000 |};
    {| value := 50;  probability := 1176 # 10000 |};
    {| value := 100; probability := 1078 # 10000 |};
    {| value := 200; probability := 49 # 1000 |};
    {| value := 300; probability := 294 # 10000 |} ].

Definition DEFAULT_SIMULATION_SEED : Z := 12345.

End Config.

(** ** random.ts *)

Module Random.

Record SeededRandom := { seed : Z }.

(** [constructor(seed)] *)
Definition new (seed0 : Z) : SeededRandom :=
  let s := Z.rem seed0 2147483647 in
  if (s <=? 0)%Z then {| seed := s + 2147483646 |} else {| seed := s |}.

(** [next()]: the draw and the stream after it. *)
Definition next (g : SeededRandom) : Q * SeededRandom :=
  let s := Z.rem (seed g * 16807) 2147483647 in
  (inject_Z (s - 1) / inject_Z 2147483646, {| seed := s |}).

(** [nextInt(min, max)] on integer bounds, the product, the floor and the
    sum exact; [Double.nextInt] rounds them as the program does. *)
Definition nextInt (g : SeededRandom) (min max : Z) : Z * SeededRandom :=
  let (r, g') := next g in
  ((Qfloor (r * inject_Z (max - min)) + min)%Z, g').

(** The stream after [n] draws with [next]. *)
Fixpoint after (n : nat) (g : SeededRandom) : SeededRandom :=
  match n with
  | O => g
  | S n' => snd (next (after n' g))
  end.

Definition in_range (g : SeededRandom) : Prop :=
  (1 <= seed g <= 2147483646)%Z.

End Random.

(** ** distributions.ts *)

Module Distributions.
Import Config Random.

(** The [for (const item of distribution)] loop: [None] when it runs to
    the end without returning. *)
Fixpoint walk (rand cumulativeProbability : Q)
    (items : list DemandDistributionItem) : option Q :=
  match items with
  | [] => None
  | item :: rest =>
      let cumulativeProbability := cumulativeProbability + probability item in
      if Qltb rand cumulativeProbability then Some (value item)
      else walk rand cumulativeProbability rest
  end.

Definition getWeightedRandomChoice (distribution : list DemandDistributionItem)
    (randomGenerator : SeededRandom) : result (Q * SeededRandom) :=
  if (length distribution =? 0)%nat then
    Throw (Error "Distribution cannot be empty.")
  else
    let (rand, g) := next randomGenerator in
    match walk rand 0 distribution with
    | Some v => Ok (v, g)
    | None =>
        match distribution !! (length distribution - 1)%nat with
        | Some item => Ok (value item, g)
        | None => Throw TypeError
        end
    end.

End Distributions.

(** ** ev.ts *)

Module Ev.

Record ElectricVehicle := {
  id : nat;
  energyNeededKwh : Q;
  energyReceivedKwh : Q
}.

Definition new (id0 : nat) (energyNeededKwh0 : Q) : ElectricVehicle :=
  {| id := id0; energyNeededKwh := energyNeededKwh0; energyReceivedKwh := 0 |}.

(** [charge(energyKwh)]: the amount returned and the vehicle after it, the
    difference and the sum exact; [Double.charge] rounds them. *)
Definition charge (ev : ElectricVehicle) (energyKwh : Q) : Q * ElectricVehicle :=
  let energyCanReceive := energyNeededKwh ev - energyReceivedKwh ev in
  let actualEnergyReceived := Qmin energyKwh energyCanReceive in
  (actualEnergyReceived,
   {| id := id ev;
      energyNeededKwh := energyNeededKwh ev;
      energyReceivedKwh := energyReceivedKwh ev + actualEnergyReceived |}).

Definition isFullyCharged (ev : ElectricVehicle) : bool :=
  Qle_bool (energyNeededKwh ev - (1 # 10000)) (energyReceivedKwh ev).

End Ev.

(** ** chargepoint.ts *)

Module Chargepoint.
Import Config.

(** [currentEV] is a reference into the store of vehicles, or [null]. *)
Record Chargepoint := {
  id : nat;
  powerKw : Q;
  currentEV : option nat
}.

Abbreviation store := (list Ev.ElectricVehicle).

Definition new (id0 : nat) : Chargepoint :=
  {| id := id0; powerKw := POWER_PER_CHARGEPOINT_KW; currentEV := None |}.

Definition isAvailable (cp : Chargepoint) : bool :=
  match currentEV cp with
  | None => true
  | Some _ => false
  end.

(** [assignEV(ev)].  A reference with no vehicle behind it is a [null] or
    [undefined] argument.  On an occupied chargepoint the message of the
    first [_log] reads [ev.id] before anything is returned, which throws on
    such an argument; the message of the second reads [ev?.id] and the test
    before it has [!ev], so an idle chargepoint answers false. *)
Definition assignEV (vehicles : store) (cp : Chargepoint) (ev : nat)
    : result (bool * Chargepoint) :=
  if negb (isAvailable cp) then
    match vehicles !! ev with
    | None => Throw TypeError
    | Some _ => Ok (false, cp)
    end
  else
    match vehicles !! ev with
    | None => Ok (false, cp)
    | Some v =>
        if Qeq_bool (Ev.energyNeededKwh v) 0 || Qle_bool (Ev.energyNeededKwh v) 0
        then Ok (false, cp)
        else Ok (true, {| id := id cp; powerKw := powerKw cp; currentEV := Some ev |})
    end.

Definition releaseEV (cp : Chargepoint) : Chargepoint :=
  match currentEV cp with
  | Some _ => {| id := id cp; powerKw := powerKw cp; currentEV := None |}
  | None => cp
  end.

(** [processChargingTick()]: the energy delivered, the chargepoint and the
    store after it.  The vehicle is charged in place in the store. *)
Definition processChargingTick (vehicles : store) (cp : Chargepoint)
    : Q * Chargepoint * store :=
  match currentEV cp with
  | None => (0, cp, vehicles)
  | Some r =>
      match vehicles !! r with
      | None => (0, cp, vehicles)
      | Some ev =>
          let energyDeliverableThisTick := powerKw cp * (1 / Qnat TICKS_PER_HOUR) in
          let (energyDelivered, ev') := Ev.charge ev energyDeliverableThisTick in
          let vehicles' := <[r := ev']> vehicles in
          if Ev.isFullyCharged ev' then (energyDelivered, releaseEV cp, vehicles')
          else (energyDelivered, cp, vehicles')
      end
  end.

End Chargepoint.

(** ** station.ts *)

Module Station.

Record ChargingStation := { chargepoints : list Chargepoint.Chargepoint }.

Definition new (numChargepoints : nat) : ChargingStation :=
  {| chargepoints := map Chargepoint.new (seq 0 numChargepoints) |}.

Definition findAvailableChargepoint (s : ChargingStation)
    : option Chargepoint.Chargepoint :=
  List.find Chargepoint.isAvailable (chargepoints s).

Definition getTotalChargepoints (s : ChargingStation) : nat :=
  length (chargepoints s).

End Station.

(** ** statistics.ts *)

Module Statistics.

Record SimulationStatistics := {
  totalEnergyConsumedKwh : Q;
  actualMaxPowerDemandKw : Q
}.

Definition reset (_ : SimulationStatistics) : SimulationStatistics :=
  {| totalEnergyConsumedKwh := 0; actualMaxPowerDemandKw := 0 |}.

Definition new : SimulationStatistics :=
  reset {| totalEnergyConsumedKwh := 0; actualMaxPowerDemandKw := 0 |}.

(** [recordTickData]: the total is the exact sum of the ticks' energies;
    [Double.recordTickData] adds them as doubles, tick by tick. *)
Definition recordTickData (s : SimulationStatistics)
    (energyThisTickKwh powerDemandThisTickKw : Q) : SimulationStatistics :=
  {| totalEnergyConsumedKwh := totalEnergyConsumedKwh s + energyThisTickKwh;
     actualMaxPowerDemandKw :=
       if Qltb (actualMaxPowerDemandKw s) powerDemandThisTickKw
       then powerDemandThisTickKw
       else actualMaxPowerDemandKw s |}.

End Statistics.

(** ** index.ts *)

Module Simulation.
Import Config.

Record SimulationOptions := {
  opt_seed : option Z;
  opt_maxTicks : option nat
}.

(** The engine, with the store of the vehicles it has created. *)
Record EVChargingSimulation := {
  numChargepoints : nat;
  station : Station.ChargingStation;
  randomGenerator : Random.SeededRandom;
  stats : Statistics.SimulationStatistics;
  maxTicksToSimulate : nat;
  nextEvId : nat;
  vehicles : Chargepoint.store
}.

Definition new (numChargepoints0 : nat) (options : SimulationOptions)
    : EVChargingSimulation :=
  let seed :=
    match opt_seed options with
    | None => DEFAULT_SIMULATION_SEED
    | Some s => s
    end in
  {| numChargepoints := numChargepoints0;
     station := Station.new numChargepoints0;
     randomGenerator := Random.new seed;
     stats := Statistics.new;
     maxTicksToSimulate :=
       match opt_maxTicks options with
       | None => TOTAL_TICKS_PER_YEAR
       | Some n => n
       end;
     nextEvId := 1;
     vehicles := [] |}.

(** What one pass over the chargepoints reads and writes: the engine's
    random stream, id counter and store, and the two totals of the tick. *)
Record Pass := {
  p_random : Random.SeededRandom;
  p_nextEvId : nat;
  p_vehicles : Chargepoint.store;
  totalEnergyDeliveredThisTick : Q;
  currentPowerDemandThisTick : Q
}.

(** [next() < hourlyArrivalProb / TICKS_PER_HOUR]; with no entry for the
    hour the right side is [NaN] and the test is false. *)
Definition arrival (r : Q) (hourlyArrivalProb : option Q) : bool :=
  match hourlyArrivalProb with
  | Some p => Qltb r (p / Qnat TICKS_PER_HOUR)
  | None => false
  end.

(** The first [if]/[else] of the loop body of [run]. *)
Definition arrive_or_charge (currentHour : nat)
    (chargepoint : Chargepoint.Chargepoint) (p : Pass)
    : result (Chargepoint.Chargepoint * Pass) :=
  if Chargepoint.isAvailable chargepoint then
    let hourlyArrivalProb := ARRIVAL_PROBABILITY_PER_HOUR_T1 !! currentHour in
    let (r, g) := Random.next (p_random p) in
    if arrival r hourlyArrivalProb then
      let* (demandKm, g) :=
        Distributions.getWeightedRandomChoice CHARGING_DEMAND_KM_DISTRIBUTION_T2 g in
      let energyNeededKwh := demandKm / 100 * KWH_PER_100KM in
      if Qltb 0 energyNeededKwh then
        let newEV := length (p_vehicles p) in
        let vehicles1 := p_vehicles p ++ [Ev.new (p_nextEvId p) energyNeededKwh] in
        let* (assigned, chargepoint) :=
          Chargepoint.assignEV vehicles1 chargepoint newEV in
        if assigned then
          let '(energyDelivered, chargepoint, vehicles2) :=
            Chargepoint.processChargingTick vehicles1 chargepoint in
          Ok (chargepoint,
              {| p_random := g;
                 p_nextEvId := S (p_nextEvId p);
                 p_vehicles := vehicles2;
                 totalEnergyDeliveredThisTick :=
                   totalEnergyDeliveredThisTick p + energyDelivered;
                 currentPowerDemandThisTick := currentPowerDemandThisTick p |})
        else
          Ok (chargepoint,
              {| p_random := g;
                 p_nextEvId := S (p_nextEvId p);
                 p_vehicles := vehicles1;
                 totalEnergyDeliveredThisTick := totalEnergyDeliveredThisTick p;
                 currentPowerDemandThisTick := currentPowerDemandThisTick p |})
      else
        Ok (chargepoint,
            {| p_random := g;
               p_nextEvId := p_nextEvId p;
               p_vehicles := p_vehicles p;
               totalEnergyDeliveredThisTick := totalEnergyDeliveredThisTick p;
               currentPowerDemandThisTick := currentPowerDemandThisTick p |})
    else
      Ok (chargepoint,
          {| p_random := g;
             p_nextEvId := p_nextEvId p;
             p_vehicles := p_vehicles p;
             totalEnergyDeliveredThisTick := totalEnergyDeliveredThisTick p;
             currentPowerDemandThisTick := currentPowerDemandThisTick p |})
  else
    let '(energyDelivered, chargepoint, vehicles1) :=
      Chargepoint.processChargingTick (p_vehicles p) chargepoint in
    Ok (chargepoint,
        {| p_random := p_random p;
           p_nextEvId := p_nextEvId p;
           p_vehicles := vehicles1;
           totalEnergyDeliveredThisTick :=
             totalEnergyDeliveredThisTick p + energyDelivered;
           currentPowerDemandThisTick := currentPowerDemandThisTick p |}).

(** The body of [for (const chargepoint of this.station.chargepoints)]. *)
Definition visit (currentHour : nat) (chargepoint : Chargepoint.Chargepoint)
    (p : Pass) : result (Chargepoint.Chargepoint * Pass) :=
  let* (chargepoint, p) := arrive_or_charge currentHour chargepoint p in
  if negb (Chargepoint.isAvailable chargepoint) then
    Ok (chargepoint,
        {| p_random := p_random p;
           p_nextEvId := p_nextEvId p;
           p_vehicles := p_vehicles p;
           totalEnergyDeliveredThisTick := totalEnergyDeliveredThisTick p;
           currentPowerDemandThisTick :=
             currentPowerDemandThisTick p + Chargepoint.powerKw chargepoint |})
  else Ok (chargepoint, p).

(** The whole inner loop, in station index order. *)
Fixpoint visit_all (currentHour : nat)
    (chargepoints : list Chargepoint.Chargepoint) (p : Pass)
    : result (list Chargepoint.Chargepoint * Pass) :=
  match chargepoints with
  | [] => Ok ([], p)
  | chargepoint :: rest =>
      let* (chargepoint, p) := visit currentHour chargepoint p in
      let* (rest, p) := visit_all currentHour rest p in
      Ok (chargepoint :: rest, p)
  end.

(** One iteration of the outer loop of [run]. *)
Definition step (sim : EVChargingSimulation) (tick : nat)
    : result EVChargingSimulation :=
  let currentHour :=
    ((tick mod (HOURS_PER_DAY * TICKS_PER_HOUR)) / TICKS_PER_HOUR)%nat in
  let* (chargepoints, p) :=
    visit_all currentHour (Station.chargepoints (station sim))
      {| p_random := randomGenerator sim;
         p_nextEvId := nextEvId sim;
         p_vehicles := vehicles sim;
         totalEnergyDeliveredThisTick := 0;
         currentPowerDemandThisTick := 0 |} in
  Ok {| numChargepoints := numChargepoints sim;
        station := {| Station.chargepoints := chargepoints |};
        randomGenerator := p_random p;
        stats :=
          Statistics.recordTickData (stats sim)
            (totalEnergyDeliveredThisTick p) (currentPowerDemandThisTick p);
        maxTicksToSimulate := maxTicksToSimulate sim;
        nextEvId := p_nextEvId p;
        vehicles := p_vehicles p |}.

(** The engine after the iterations [tick = 0 .. n - 1] of the loop of
    [run]. *)
Fixpoint run_ticks (n : nat) (sim : EVChargingSimulation)
    : result EVChargingSimulation :=
  match n with
  | O => Ok sim
  | S tick =>
      let* sim := run_ticks tick sim in
      step sim tick
  end.

(** [run()]: the engine when the loop ends; [this.stats] is [stats] of it. *)
Definition run (sim : EVChargingSimulation) : result EVChargingSimulation :=
  run_ticks (maxTicksToSimulate sim) sim.

(** The sum of [energyReceivedKwh] over a store. *)
Definition energy_received (vs : Chargepoint.store) : Q :=
  foldr (fun ev acc => Ev.energyReceivedKwh ev + acc) 0 vs.

End Simulation.

(** ** The weighted choice in the words of the spec *)

Module DistributionsSpec.
Import Config.

(** The running probability sum when the walk stands at entry [i]: the
    probabilities of entries [0 .. i] added up. *)
Definition running_sum (distribution : list DemandDistributionItem) (i : nat) : Q :=
  foldr (fun item acc => probability item + acc) 0 (take (S i) distribution).

(** [v] is the value of the first entry whose running sum strictly exceeds
    [r]; or no running sum exceeds [r] and [v] is the value of the last
    entry. *)
Definition chosen (distribution : list DemandDistributionItem) (r v : Q) : Prop :=
  (exists i item,
      distribution !! i = Some item /\ v = value item /\
      r < running_sum distribution i /\
      forall j, (j < i)%nat -> ~ r < running_sum distribution j)
  \/
  ((forall j, (j < length distribution)%nat -> ~ r < running_sum distribution j) /\
   exists item, last distribution = Some item /\ v = value item).

End DistributionsSpec.

(** ** Invariants of a run *)

Module Invariant.
Import Config Chargepoint Simulation.

Definition vehicle_ok (ev : Ev.ElectricVehicle) : Prop :=
  0 <= Ev.energyReceivedKwh ev /\ Ev.energyReceivedKwh ev <= Ev.energyNeededKwh ev.

(** A chargepoint's reference points into the store. *)
Definition ref_ok (vs : store) (cp : Chargepoint) : Prop :=
  forall r, currentEV cp = Some r -> (r < length vs)%nat.

Definition rated (cp : Chargepoint) : Prop :=
  powerKw cp = POWER_PER_CHARGEPOINT_KW.

(** Every vehicle of the store is within its need, and the vehicle at
    position [i] is the one created with id [i + 1]. *)
Definition store_ok (vs : store) : Prop :=
  forall i ev, vs !! i = Some ev -> vehicle_ok ev /\ Ev.id ev = S i.

(** What holds of the chargepoints and the store between two visits. *)
Definition station_ok (cps : list Chargepoint) (vs : store) : Prop :=
  Forall rated cps /\ Forall (ref_ok vs) cps /\ store_ok vs.

(** What one visit makes of a chargepoint [cp] and the pass state [p]:
    the invariants again, a store that only grew, and a tick total that
    grew by what the store received. *)
Definition handled (cp : Chargepoint) (p : Pass) (cp' : Chargepoint) (p' : Pass)
    : Prop :=
  rated cp' /\ ref_ok (p_vehicles p') cp' /\ store_ok (p_vehicles p') /\
  p_nextEvId p' = S (length (p_vehicles p')) /\
  (length (p_vehicles p) <= length (p_vehicles p'))%nat /\
  energy_received (p_vehicles p') - totalEnergyDeliveredThisTick p' ==
  energy_received (p_vehicles p) - totalEnergyDeliveredThisTick p /\
  totalEnergyDeliveredThisTick p <= totalEnergyDeliveredThisTick p'.

(** What holds of the engine between two ticks. *)
Definition engine_ok (sim : EVChargingSimulation) : Prop :=
  station_ok (Station.chargepoints (station sim)) (vehicles sim) /\
  length (Station.chargepoints (station sim)) = numChargepoints sim /\
  nextEvId sim = S (length (vehicles sim)) /\
  Statistics.totalEnergyConsumedKwh (stats sim) == energy_received (vehicles sim) /\
  Statistics.actualMaxPowerDemandKw (stats sim) <=
    Qnat (numChargepoints sim) * POWER_PER_CHARGEPOINT_KW.

End Invariant.

(** ** Ownership of vehicles *)

Module Ownership.
Import Config Chargepoint Simulation Invariant.

(** Some chargepoint of the station refers to the vehicle at [r]. *)
Definition holds (cps : list Chargepoint) (r : nat) : Prop :=
  exists i cp, cps !! i = Some cp /\ currentEV cp = Some r.

(** The need of a vehicle comes from an entry of the demand table. *)
Definition demanded (ev : Ev.ElectricVehicle) : Prop :=
  exists item,
    item ∈ CHARGING_DEMAND_KM_DISTRIBUTION_T2 /\
    Ev.energyNeededKwh ev = value item / 100 * KWH_PER_100KM.

(** The station and the store between two visits of a chargepoint. *)
Record station_wf (cps : list Chargepoint) (vs : store) : Prop := {
  wf_ident : forall i cp, cps !! i = Some cp ->
    id cp = i /\ powerKw cp = POWER_PER_CHARGEPOINT_KW;
  wf_ref : forall i cp r, cps !! i = Some cp -> currentEV cp = Some r ->
    (r < length vs)%nat;
  wf_excl : forall i j cpi cpj r,
    cps !! i = Some cpi -> cps !! j = Some cpj ->
    currentEV cpi = Some r -> currentEV cpj = Some r -> i = j;
  wf_store : forall r ev, vs !! r = Some ev ->
    vehicle_ok ev /\ 0 < Ev.energyNeededKwh ev /\ demanded ev /\ Ev.id ev = S r;
  wf_full : forall r ev, vs !! r = Some ev ->
    (Ev.isFullyCharged ev = false <-> holds cps r);
  wf_charged : forall r ev, vs !! r = Some ev -> 0 < Ev.energyReceivedKwh ev
}.

Definition pass_wf (cps : list Chargepoint) (p : Pass) : Prop :=
  station_wf cps (p_vehicles p) /\ p_nextEvId p = S (length (p_vehicles p)).

Definition engine_wf (sim : EVChargingSimulation) : Prop :=
  station_wf (Station.chargepoints (station sim)) (vehicles sim) /\
  nextEvId sim = S (length (vehicles sim)) /\
  length (Station.chargepoints (station sim)) = numChargepoints sim.

(** The store [vs'] continues the store [vs]: every vehicle of [vs] is still
    at its position, with its id and need, and has lost no energy. *)
Definition store_le (vs vs' : store) : Prop :=
  forall r ev, vs !! r = Some ev ->
    exists ev', vs' !! r = Some ev' /\
      Ev.id ev' = Ev.id ev /\
      Ev.energyNeededKwh ev' = Ev.energyNeededKwh ev /\
      Ev.energyReceivedKwh ev <= Ev.energyReceivedKwh ev'.

(** The number of occupied chargepoints. *)
Fixpoint occupied (cps : list Chargepoint) : nat :=
  match cps with
  | [] => O
  | cp :: rest => if isAvailable cp then occupied rest else S (occupied rest)
  end.

End Ownership.

(** ** A series of ticks fed to the statistics *)

Module StatisticsSeries.
Import Statistics.

(** [recordTickData] called once per entry of [ticks], each entry the energy
    and the power demand of a tick, in order. *)
Definition record_all (s : SimulationStatistics) (ticks : list (Q * Q))
    : SimulationStatistics :=
  foldl (fun s t => recordTickData s (fst t) (snd t)) s ticks.

(** The energies of a series added up. *)
Definition energy_sum (ticks : list (Q * Q)) : Q :=
  foldr (fun t acc => fst t + acc) 0 ticks.

End StatisticsSeries.

(** ** app/actions.ts and the validation of index.ts: the figures derived
    from a finished run *)

Module Actions.
Import Config Simulation.

Record SimulationInputParameters := {
  p_numChargepoints : nat;
  arrivalMultiplier : Q;
  carConsumptionKwh100km : Q;
  chargepointPowerKw : Q
}.

(** The options [runSimulationAction] builds the engine with. *)
Definition simOptions : SimulationOptions :=
  {| opt_seed := Some DEFAULT_SIMULATION_SEED; opt_maxTicks := None |}.

Definition theoreticalMaxPowerDemandKw (params : SimulationInputParameters) : Q :=
  Qnat (p_numChargepoints params) * chargepointPowerKw params.

(** [theoretical > 0 ? (actualMax / theoretical) * 100 : 0], as both
    [runSimulationAction] and [runAndLogTask1Validation] compute it. *)
Definition concurrencyFactor (theoretical actualMax : Q) : Q :=
  if Qltb 0 theoretical then actualMax / theoretical * 100 else 0.

(** [mainSimulation.nextEvId > 1 ? mainSimulation.nextEvId - 1 : 0] *)
Definition numChargingSessions (sim : EVChargingSimulation) : nat :=
  if (1 <? nextEvId sim)%nat then (nextEvId sim - 1)%nat else 0%nat.

(** [Math.round]: the nearest integer, a tie going up. *)
Definition round (x : Q) : Z := Qfloor (x + (1 # 2)).

Record ChargingEventsBreakdown := {
  perMonth : list Z;
  avgPerWeek : Q;
  avgPerDay : Q
}.

Definition monthlyDistributionFactors : list Q :=
  [ 7 # 100; 6 # 100; 8 # 100; 8 # 100; 9 # 100; 9 # 100;
    1 # 10; 1 # 10; 9 # 100; 8 # 100; 8 # 100; 8 # 100 ].

Definition totalFactor : Q :=
  foldl (fun sum factor => sum + factor) 0 monthlyDistributionFactors.

Definition normalizedMonthlyFactors : list Q :=
  map (fun factor => factor / totalFactor) monthlyDistributionFactors.

(** The loop over the first 11 months, entered with the months pushed so
    far and the sessions that remain; [factors] are the entries of
    [normalizedMonthlyFactors] still to come. *)
Fixpoint first_months (numChargingSessions : Z) (factors : list Q)
    (chartDataRandom : Random.SeededRandom) (perMonth : list Z)
    (remainingSessions : Z) : list Z * Z * Random.SeededRandom :=
  match factors with
  | [] => (perMonth, remainingSessions, chartDataRandom)
  | factor :: rest =>
      let (r, g) := Random.next chartDataRandom in
      let sessionsThisMonth :=
        round (inject_Z numChargingSessions * factor * ((9 # 10) + r * (2 # 10))) in
      first_months numChargingSessions rest g
        (perMonth ++ [sessionsThisMonth]) (remainingSessions - sessionsThisMonth)
  end.

(** The block of [runSimulationAction] that fills [eventsBreakdown], from the
    stream [chartDataRandom] as it stands there. *)
Definition eventsBreakdown (numChargingSessions : nat)
    (chartDataRandom : Random.SeededRandom)
    : ChargingEventsBreakdown * Random.SeededRandom :=
  let n := Z.of_nat numChargingSessions in
  if (0 <? n)%Z then
    let '(perMonth, remainingSessions, g) :=
      first_months n (take 11 normalizedMonthlyFactors) chartDataRandom [] n in
    let perMonth := perMonth ++ [Z.max 0 remainingSessions] in
    let sumMonthlySessions := foldl Z.add 0%Z perMonth in
    let perMonth :=
      if negb (sumMonthlySessions =? n)%Z && (0 <? length perMonth)%nat then
        let diff := (n - sumMonthlySessions)%Z in
        alter (fun last => (last + diff)%Z) (length perMonth - 1)%nat perMonth
      else perMonth in
    ({| perMonth := perMonth;
        avgPerWeek := inject_Z n / (Qnat DAYS_IN_YEAR / 7);
        avgPerDay := inject_Z n / Qnat DAYS_IN_YEAR |}, g)
  else
    ({| perMonth := replicate 12 0%Z; avgPerWeek := 0; avgPerDay := 0 |},
     chartDataRandom).

(** What [runAndLogTask1Validation] computes from the statistics of its run
    and prints: the theoretical maximum, the concurrency factor and the two
    hint checks. *)
Record Task1Validation := {
  t1_theoreticalMaxPowerDemandKw : Q;
  t1_concurrencyFactor : Q;
  isActualMaxPowerInHintRange : bool;
  isConcurrencyInHintRange : bool
}.

Definition task1_validation (stats : Statistics.SimulationStatistics)
    : Task1Validation :=
  let numChargepointsTask1 := 20%nat in
  let theoretical := Qnat numChargepointsTask1 * POWER_PER_CHARGEPOINT_KW in
  let concurrency :=
    concurrencyFactor theoretical (Statistics.actualMaxPowerDemandKw stats) in
  {| t1_theoreticalMaxPowerDemandKw := theoretical;
     t1_concurrencyFactor := concurrency;
     isActualMaxPowerInHintRange :=
       Qle_bool 77 (Statistics.actualMaxPowerDemandKw stats) &&
       Qle_bool (Statistics.actualMaxPowerDemandKw stats) 121;
     isConcurrencyInHintRange :=
       Qle_bool 35 concurrency && Qle_bool concurrency 55 |}.

(** [runAndLogTask1Validation]: the run for 20 chargepoints with the default
    seed over the full year, then the figures above. *)
Definition runAndLogTask1Validation : result Task1Validation :=
  let* sim :=
    run (Simulation.new 20
           {| opt_seed := Some DEFAULT_SIMULATION_SEED; opt_maxTicks := None |}) in
  Ok (task1_validation (stats sim)).

End Actions.

(** ** The engine on doubles

    The functions of random.ts, distributions.ts, ev.ts, chargepoint.ts,
    statistics.ts and index.ts once more, line for line as above, with every
    [number] a binary64 float and every operation the rounded one. *)

Module Double.
#[local] Set Warnings "-inexact-float".
#[local] Open Scope float_scope.

(** An integer below 2^53 in absolute value as the double it is. *)
Definition of_Z (z : Z) : float :=
  match z with
  | Z0 => 0
  | Zpos _ => of_uint63 (Uint63Axioms.of_Z z)
  | Zneg p => - of_uint63 (Uint63Axioms.of_Z (Zpos p))
  end.

(** [Math.floor] *)
Definition floor (x : float) : float :=
  match Prim2SF x with
  | S754_finite s m e =>
      if (0 <=? e)%Z then x
      else of_Z (Z.shiftr (if s then Zneg m else Zpos m) (- e))
  | _ => x
  end.

(** [Math.min] of two arguments. *)
Definition min (a b : float) : float :=
  if is_nan a || is_nan b then nan
  else if a <? b then a
  else if b <? a then b
  else if get_sign a then a else b.

Definition POWER_PER_CHARGEPOINT_KW : float := 11.
Definition TICKS_PER_HOUR : float := 4.
Definition KWH_PER_100KM : float := 18.

Definition ARRIVAL_PROBABILITY_PER_HOUR_T1 : list float :=
  [ 0.0094; 0.0094; 0.0094; 0.0094; 0.0094; 0.0094; 0.0094; 0.0094;
    0.0283; 0.0283;
    0.0566; 0.0566; 0.0566;
    0.0755; 0.0755; 0.0755;
    0.1038; 0.1038; 0.1038;
    0.0472; 0.0472; 0.0472;
    0.0094; 0.0094 ].

Record DemandDistributionItem := {
  value : float;
  probability : float
}.

Definition CHARGING_DEMAND_KM_DISTRIBUTION_T2 : list DemandDistributionItem :=
  [ {| value := 0;   probability := 0.3431 |};
    {| value := 5;   probability := 0.049 |};
    {| value := 10;  probability := 0.098 |};
    {| value := 20;  probability := 0.1176 |};
    {| value := 30;  probability := 0.0882 |};
    {| value := 50;  probability := 0.1176 |};
    {| value := 100; probability := 0.1078 |};
    {| value := 200; probability := 0.049 |};
    {| value := 300; probability := 0.0294 |} ].

(** random.ts; the register and the constructor are [Random]'s. *)

Definition next (g : Random.SeededRandom) : float * Random.SeededRandom :=
  let s := Z.rem (Random.seed g * 16807) 2147483647 in
  (of_Z (s - 1) / of_Z 2147483646, {| Random.seed := s |}).

Definition nextInt (g : Random.SeededRandom) (min max : float)
    : float * Random.SeededRandom :=
  let (r, g') := next g in
  (floor (r * (max - min)) + min, g').

(** distributions.ts *)

Fixpoint walk (rand cumulativeProbability : float)
    (items : list DemandDistributionItem) : option float :=
  match items with
  | [] => None
  | item :: rest =>
      let cumulativeProbability := cumulativeProbability + probability item in
      if rand <? cumulativeProbability then Some (value item)
      else walk rand cumulativeProbability rest
  end.

Definition getWeightedRandomChoice (distribution : list DemandDistributionItem)
    (randomGenerator : Random.SeededRandom) : result (float * Random.SeededRandom) :=
  if (length distribution =? 0)%nat then
    Throw (Error "Distribution cannot be empty.")
  else
    let (rand, g) := next randomGenerator in
    match walk rand 0 distribution with
    | Some v => Ok (v, g)
    | None =>
        match distribution !! (length distribution - 1)%nat with
        | Some item => Ok (value item, g)
        | None => Throw TypeError
        end
    end.

(** ev.ts *)

Record ElectricVehicle := {
  ev_id : nat;
  energyNeededKwh : float;
  energyReceivedKwh : float
}.

Definition new_ev (id0 : nat) (energyNeededKwh0 : float) : ElectricVehicle :=
  {| ev_id := id0; energyNeededKwh := energyNeededKwh0; energyReceivedKwh := 0 |}.

Definition charge (ev : ElectricVehicle) (energyKwh : float)
    : float * ElectricVehicle :=
  let energyCanReceive := energyNeededKwh ev - energyReceivedKwh ev in
  let actualEnergyReceived := min energyKwh energyCanReceive in
  (actualEnergyReceived,
   {| ev_id := ev_id ev;
      energyNeededKwh := energyNeededKwh ev;
      energyReceivedKwh := energyReceivedKwh ev + actualEnergyReceived |}).

Definition isFullyCharged (ev : ElectricVehicle) : bool :=
  energyNeededKwh ev - 0.0001 <=? energyReceivedKwh ev.

(** chargepoint.ts *)

Record Chargepoint := {
  id : nat;
  powerKw : float;
  currentEV : option nat
}.

Definition new_chargepoint (id0 : nat) : Chargepoint :=
  {| id := id0; powerKw := POWER_PER_CHARGEPOINT_KW; currentEV := None |}.

Definition isAvailable (cp : Chargepoint) : bool :=
  match currentEV cp with
  | None => true
  | Some _ => false
  end.

Definition assignEV (vehicles : list ElectricVehicle) (cp : Chargepoint) (ev : nat)
    : result (bool * Chargepoint) :=
  if negb (isAvailable cp) then
    match vehicles !! ev with
    | None => Throw TypeError
    | Some _ => Ok (false, cp)
    end
  else
    match vehicles !! ev with
    | None => Ok (false, cp)
    | Some v =>
        if (energyNeededKwh v =? 0) || is_nan (energyNeededKwh v)
           || (energyNeededKwh v <=? 0)
        then Ok (false, cp)
        else Ok (true, {| id := id cp; powerKw := powerKw cp; currentEV := Some ev |})
    end.

Definition releaseEV (cp : Chargepoint) : Chargepoint :=
  match currentEV cp with
  | Some _ => {| id := id cp; powerKw := powerKw cp; currentEV := None |}
  | None => cp
  end.

Definition processChargingTick (vehicles : list ElectricVehicle) (cp : Chargepoint)
    : float * Chargepoint * list ElectricVehicle :=
  match currentEV cp with
  | None => (0, cp, vehicles)
  | Some r =>
      match vehicles !! r with
      | None => (0, cp, vehicles)
      | Some ev =>
          let energyDeliverableThisTick := powerKw cp * (1 / TICKS_PER_HOUR) in
          let (energyDelivered, ev') := charge ev energyDeliverableThisTick in
          let vehicles' := <[r := ev']> vehicles in
          if isFullyCharged ev' then (energyDelivered, releaseEV cp, vehicles')
          else (energyDelivered, cp, vehicles')
      end
  end.

(** statistics.ts *)

Record SimulationStatistics := {
  totalEnergyConsumedKwh : float;
  actualMaxPowerDemandKw : float
}.

Definition recordTickData (s : SimulationStatistics)
    (energyThisTickKwh powerDemandThisTickKw : float) : SimulationStatistics :=
  {| totalEnergyConsumedKwh := totalEnergyConsumedKwh s + energyThisTickKwh;
     actualMaxPowerDemandKw :=
       if actualMaxPowerDemandKw s <? powerDemandThisTickKw
       then powerDemandThisTickKw
       else actualMaxPowerDemandKw s |}.

(** index.ts *)

Record EVChargingSimulation := {
  numChargepoints : nat;
  chargepoints : list Chargepoint;
  randomGenerator : Random.SeededRandom;
  stats : SimulationStatistics;
  maxTicksToSimulate : nat;
  nextEvId : nat;
  vehicles : list ElectricVehicle
}.

Definition new (numChargepoints0 : nat) (options : Simulation.SimulationOptions)
    : EVChargingSimulation :=
  {| numChargepoints := numChargepoints0;
     chargepoints := map new_chargepoint (seq 0 numChargepoints0);
     randomGenerator :=
       Random.new
         match Simulation.opt_seed options with
         | None => Config.DEFAULT_SIMULATION_SEED
         | Some s => s
         end;
     stats := {| totalEnergyConsumedKwh := 0; actualMaxPowerDemandKw := 0 |};
     maxTicksToSimulate :=
       match Simulation.opt_maxTicks options with
       | None => Config.TOTAL_TICKS_PER_YEAR
       | Some n => n
       end;
     nextEvId := 1;
     vehicles := [] |}.

Record Pass := {
  p_random : Random.SeededRandom;
  p_nextEvId : nat;
  p_vehicles : list ElectricVehicle;
  totalEnergyDeliveredThisTick : float;
  currentPowerDemandThisTick : float
}.

Definition arrival (r : float) (hourlyArrivalProb : option float) : bool :=
  match hourlyArrivalProb with
  | Some p => r <? p / TICKS_PER_HOUR
  | None => false
  end.

Definition arrive_or_charge (currentHour : nat) (chargepoint : Chargepoint)
    (p : Pass) : result (Chargepoint * Pass) :=
  if isAvailable chargepoint then
    let hourlyArrivalProb := ARRIVAL_PROBABILITY_PER_HOUR_T1 !! currentHour in
    let (r, g) := next (p_random p) in
    if arrival r hourlyArrivalProb then
      let* (demandKm, g) :=
        getWeightedRandomChoice CHARGING_DEMAND_KM_DISTRIBUTION_T2 g in
      let energyNeededKwh := demandKm / 100 * KWH_PER_100KM in
      if 0 <? energyNeededKwh then
        let newEV := length (p_vehicles p) in
        let vehicles1 := p_vehicles p ++ [new_ev (p_nextEvId p) energyNeededKwh] in
        let* (assigned, chargepoint) := assignEV vehicles1 chargepoint newEV in
        if assigned then
          let '(energyDelivered, chargepoint, vehicles2) :=
            processChargingTick vehicles1 chargepoint in
          Ok (chargepoint,
              {| p_random := g;
                 p_nextEvId := S (p_nextEvId p);
                 p_vehicles := vehicles2;
                 totalEnergyDeliveredThisTick :=
                   totalEnergyDeliveredThisTick p + energyDelivered;
                 currentPowerDemandThisTick := currentPowerDemandThisTick p |})
        else
          Ok (chargepoint,
              {| p_random := g;
                 p_nextEvId := S (p_nextEvId p);
                 p_vehicles := vehicles1;
                 totalEnergyDeliveredThisTick := totalEnergyDeliveredThisTick p;
                 currentPowerDemandThisTick := currentPowerDemandThisTick p |})
      else
        Ok (chargepoint,
            {| p_random := g;
               p_nextEvId := p_nextEvId p;
               p_vehicles := p_vehicles p;
               totalEnergyDeliveredThisTick := totalEnergyDeliveredThisTick p;
               currentPowerDemandThisTick := currentPowerDemandThisTick p |})
    else
      Ok (chargepoint,
          {| p_random := g;
             p_nextEvId := p_nextEvId p;
             p_vehicles := p_vehicles p;
             totalEnergyDeliveredThisTick := totalEnergyDeliveredThisTick p;
             currentPowerDemandThisTick := currentPowerDemandThisTick p |})
  else
    let '(energyDelivered, chargepoint, vehicles1) :=
      processChargingTick (p_vehicles p) chargepoint in
    Ok (chargepoint,
        {| p_random := p_random p;
           p_nextEvId := p_nextEvId p;
           p_vehicles := vehicles1;
           totalEnergyDeliveredThisTick :=
             totalEnergyDeliveredThisTick p + energyDelivered;
           currentPowerDemandThisTick := currentPowerDemandThisTick p |}).

Definition visit (currentHour : nat) (chargepoint : Chargepoint) (p : Pass)
    : result (Chargepoint * Pass) :=
  let* (chargepoint, p) := arrive_or_charge currentHour chargepoint p in
  if negb (isAvailable chargepoint) then
    Ok (chargepoint,
        {| p_random := p_random p;
           p_nextEvId := p_nextEvId p;
           p_vehicles := p_vehicles p;
           totalEnergyDeliveredThisTick := totalEnergyDeliveredThisTick p;
           currentPowerDemandThisTick :=
             currentPowerDemandThisTick p + powerKw chargepoint |})
  else Ok (chargepoint, p).

Fixpoint visit_all (currentHour : nat) (cps : list Chargepoint) (p : Pass)
    : result (list Chargepoint * Pass) :=
  match cps with
  | [] => Ok ([], p)
  | chargepoint :: rest =>
      let* (chargepoint, p) := visit currentHour chargepoint p in
      let* (rest, p) := visit_all currentHour rest p in
      Ok (chargepoint :: rest, p)
  end.

Definition step (sim : EVChargingSimulation) (tick : nat)
    : result EVChargingSimulation :=
  let currentHour :=
    ((tick mod (Config.HOURS_PER_DAY * Config.TICKS_PER_HOUR))
       / Config.TICKS_PER_HOUR)%nat in
  let* (cps, p) :=
    visit_all currentHour (chargepoints sim)
      {| p_random := randomGenerator sim;
         p_nextEvId := nextEvId sim;
         p_vehicles := vehicles sim;
         totalEnergyDeliveredThisTick := 0;
         currentPowerDemandThisTick := 0 |} in
  Ok {| numChargepoints := numChargepoints sim;
        chargepoints := cps;
        randomGenerator := p_random p;
        stats :=
          recordTickData (stats sim)
            (totalEnergyDeliveredThisTick p) (currentPowerDemandThisTick p);
        maxTicksToSimulate := maxTicksToSimulate sim;
        nextEvId := p_nextEvId p;
        vehicles := p_vehicles p |}.

Fixpoint run_ticks (n : nat) (sim : EVChargingSimulation)
    : result EVChargingSimulation :=
  match n with
  | O => Ok sim
  | S tick =>
      let* sim := run_ticks tick sim in
      step sim tick
  end.

Definition run (sim : EVChargingSimulation) : result EVChargingSimulation :=
  run_ticks (maxTicksToSimulate sim) sim.

(** The sum of [energyReceivedKwh] over the vehicles, added up from 0 in the
    order the vehicles were created, and in the opposite order. *)
Definition energy_received (vs : list ElectricVehicle) : float :=
  foldl (fun acc ev => acc + energyReceivedKwh ev) 0 vs.

Definition energy_received_backwards (vs : list ElectricVehicle) : float :=
  foldr (fun ev acc => energyReceivedKwh ev + acc) 0 vs.

End Double.

(** * Properties *)

(** ** Numbers *)

Lemma Qltb_lt (a b : Q) : Qltb a b = true <-> a < b.
Proof.
  unfold Qltb. rewrite negb_true_iff, <- not_true_iff_false, Qle_bool_iff.
  split; [apply Qnot_le_lt | apply Qlt_not_le].
Qed.

Lemma Qltb_ge (a b : Q) : Qltb a b = false <-> b <= a.
Proof.
  unfold Qltb. rewrite negb_false_iff. apply Qle_bool_iff.
Qed.

(** ** The random stream *)

Section RandomStream.
Import Random.

Lemma draw_fraction (s : Z) :
  inject_Z (s - 1) / inject_Z 2147483646 == (s - 1) # 2147483646.
Proof. symmetry. apply Qmake_Qdiv. Qed.

Lemma modulus_coprime : Z.gcd 2147483647 16807 = 1%Z.
Proof. reflexivity. Qed.

(** A register in [1, 2147483646] stays there. *)
Lemma next_in_range (g : SeededRandom) :
  in_range g -> in_range (snd (next g)).
Proof.
  unfold in_range, next; cbn [snd seed]. intros Hg.
  rewrite Z.rem_mod_nonneg by lia.
  pose proof (Z.mod_pos_bound (seed g * 16807) 2147483647 eq_refl) as Hb.
  assert ((seed g * 16807) mod 2147483647 <> 0)%Z as Hnz.
  { intros Hz. apply Z.mod_divide in Hz; [|lia].
    rewrite Z.mul_comm in Hz.
    apply Z.gauss in Hz; [|exact modulus_coprime].
    apply Z.divide_pos_le in Hz; lia. }
  lia.
Qed.

Lemma after_in_range (n : nat) (g : SeededRandom) :
  in_range g -> in_range (after n g).
Proof.
  intros Hg. induction n as [|n IH]; cbn [after]; [exact Hg|].
  now apply next_in_range.
Qed.

Lemma next_unit_interval (g : SeededRandom) :
  in_range g -> 0 <= fst (next g) /\ fst (next g) < 1.
Proof.
  intros Hg. pose proof (next_in_range g Hg) as Hn.
  unfold in_range, next in *; cbn [fst snd seed] in *.
  rewrite draw_fraction.
  unfold Qle, Qlt; cbn [Qnum Qden]. lia.
Qed.

Lemma nextInt_bounds (g : SeededRandom) (min max : Z) :
  in_range g -> (min < max)%Z ->
  (min <= fst (nextInt g min max) < max)%Z.
Proof.
  intros Hg Hlt. destruct (next_unit_interval g Hg) as [H0 H1].
  unfold nextInt. destruct (next g) as [r g']; cbn [fst] in *.
  assert (0 < inject_Z (max - min)) as Hd.
  { rewrite <- (Zlt_Qlt 0). lia. }
  assert (0 <= r * inject_Z (max - min)) as Hlo.
  { apply Qmult_le_0_compat; [exact H0 | now apply Qlt_le_weak]. }
  assert (r * inject_Z (max - min) < inject_Z (max - min)) as Hhi.
  { rewrite <- (Qmult_1_l (inject_Z (max - min))) at 2.
    now apply Qmult_lt_compat_r. }
  pose proof (Qfloor_resp_le _ _ Hlo) as Hf0. change (Qfloor 0) with 0%Z in Hf0.
  pose proof (Qfloor_le (r * inject_Z (max - min))) as Hf1.
  assert (inject_Z (Qfloor (r * inject_Z (max - min))) < inject_Z (max - min)) as Hf2.
  { eapply Qle_lt_trans; eassumption. }
  rewrite <- Zlt_Qlt in Hf2. lia.
Qed.

(** The constructor normalises every seed but those whose remainder is
    [-2147483646]. *)
Lemma new_in_range (seed0 : Z) :
  Z.rem seed0 2147483647 <> (-2147483646)%Z -> in_range (new seed0).
Proof.
  intros Hne. unfold in_range, new.
  pose proof (Z.rem_bound_abs seed0 2147483647 ltac:(lia)) as Hb.
  destruct (Z.leb_spec (Z.rem seed0 2147483647) 0); cbn [seed]; lia.
Qed.

Lemma new_nonneg_in_range (seed0 : Z) : (0 <= seed0)%Z -> in_range (new seed0).
Proof.
  intros H. apply new_in_range.
  pose proof (Z.rem_nonneg seed0 2147483647 ltac:(lia) H). lia.
Qed.

(** X1: away from that one residue the constructor leaves the register in
    [1, 2147483646], there it stays after any number of draws, and every
    [next()] is in [0, 1). *)
Theorem stream_in_range (seed0 : Z) (n : nat) :
  Z.rem seed0 2147483647 <> (-2147483646)%Z ->
  in_range (new seed0) /\
  in_range (after n (new seed0)) /\
  0 <= fst (next (after n (new seed0))) /\
  fst (next (after n (new seed0))) < 1.
Proof.
  intros Hne. pose proof (new_in_range seed0 Hne) as H0.
  pose proof (after_in_range n _ H0) as Hn.
  destruct (next_unit_interval _ Hn) as [Hlo Hhi].
  split; [exact H0|]. split; [exact Hn|]. split; [exact Hlo | exact Hhi].
Qed.

(** C2, as the code has it: with seed 1 the register becomes 16807 and
    the first [next()] returns (16807 - 1) / 2147483646, that is
    16806 / 2147483646. *)
Theorem first_draw_seed_1 :
  fst (next (new 1)) == 16806 # 2147483646 /\
  seed (snd (next (new 1))) = 16807%Z.
Proof. split; reflexivity. Qed.

(** C2, as the spec words it, fails: the first draw for seed 1 is not
    16807 / 2147483646. *)
Lemma seed_1_draw_is_not_16807 :
  ~ fst (next (new 1)) == 16807 # 2147483646.
Proof. unfold Qeq; cbn. discriminate. Qed.

(** C3 at the seed -2147483646: the constructor leaves the register at 0,
    outside [1, 2147483646]; it then stays 0, every [next()] returns
    -1 / 2147483646, which is negative, and [nextInt(5, 10)] returns 4. *)
Theorem seed_register_zero :
  seed (new (-2147483646)) = 0%Z /\
  ~ in_range (new (-2147483646)) /\
  (forall n, seed (after n (new (-2147483646))) = 0%Z) /\
  (forall n, fst (next (after n (new (-2147483646)))) < 0) /\
  (forall n, fst (nextInt (after n (new (-2147483646))) 5 10) = 4%Z).
Proof.
  assert (forall n, after n (new (-2147483646)) = {| seed := 0 |}) as Hn.
  { induction n as [|n IH]; cbn [after]; [reflexivity|]. now rewrite IH. }
  split; [reflexivity|].
  split; [unfold in_range; change (seed (new (-2147483646))) with 0%Z; lia|].
  repeat split; intros n; rewrite Hn; reflexivity.
Qed.

End RandomStream.

(** ** The weighted choice *)

Section WeightedChoice.
Import Config Random Distributions DistributionsSpec.

Lemma running_sum_head item rest :
  running_sum (item :: rest) 0 == probability item.
Proof.
  unfold running_sum. cbn [take firstn]. rewrite firstn_O. cbn [foldr].
  apply Qplus_0_r.
Qed.

Lemma running_sum_tail item rest i :
  running_sum (item :: rest) (S i) == probability item + running_sum rest i.
Proof. unfold running_sum. reflexivity. Qed.

(** The loop, started with the accumulator at [acc]. *)
Lemma walk_spec (r : Q) (items : list DemandDistributionItem) : forall acc,
  match walk r acc items with
  | Some v =>
      exists i item,
        items !! i = Some item /\ v = value item /\
        r < acc + running_sum items i /\
        forall j, (j < i)%nat -> ~ r < acc + running_sum items j
  | None =>
      forall j, (j < length items)%nat -> ~ r < acc + running_sum items j
  end.
Proof.
  induction items as [|item rest IH]; intros acc; cbn [walk].
  - intros j Hj. cbn in Hj. lia.
  - destruct (Qltb r (acc + probability item)) eqn:E.
    + apply Qltb_lt in E. exists 0%nat, item.
      repeat split.
      * rewrite running_sum_head. exact E.
      * intros j Hj. lia.
    + apply Qltb_ge in E. specialize (IH (acc + probability item)).
      destruct (walk r (acc + probability item) rest) as [v|].
      * destruct IH as (i & it & Hi & Hv & Hlt & Hmin).
        exists (S i), it. repeat split; [exact Hi | exact Hv | |].
        -- rewrite running_sum_tail. lra.
        -- intros [|j] Hj.
           ++ rewrite running_sum_head. lra.
           ++ rewrite running_sum_tail. intros Hc.
              apply (Hmin j); [lia | lra].
      * intros [|j] Hj.
        -- rewrite running_sum_head. lra.
        -- rewrite running_sum_tail. intros Hc.
           apply (IH j); [cbn in Hj; lia | lra].
Qed.

(** On a non-empty distribution: one draw, then the entry the walk stops
    at, or the last one. *)
Lemma choice_nonempty (item : DemandDistributionItem)
    (rest : list DemandDistributionItem) (g : SeededRandom) :
  exists v,
    getWeightedRandomChoice (item :: rest) g = Ok (v, snd (next g)) /\
    chosen (item :: rest) (fst (next g)) v.
Proof.
  unfold getWeightedRandomChoice.
  change (length (item :: rest) =? 0)%nat with false; cbv iota.
  destruct (next g) as [r g'] eqn:Eg; cbn [fst snd].
  pose proof (walk_spec r (item :: rest) 0) as Hw.
  destruct (walk r 0 (item :: rest)) as [v|].
  - exists v. split; [reflexivity|]. left.
    destruct Hw as (i & it & Hi & Hv & Hlt & Hmin).
    exists i, it. repeat split; [exact Hi | exact Hv | lra |].
    intros j Hj Hc. apply (Hmin j Hj). lra.
  - destruct (last (item :: rest)) as [it|] eqn:El.
    + rewrite last_lookup in El. cbn [length pred] in El.
      replace (length (item :: rest) - 1)%nat with (length rest)
        by (cbn [length]; lia).
      rewrite El. exists (value it). split; [reflexivity|]. right.
      split.
      * intros j Hj Hc. apply (Hw j Hj). lra.
      * exists it. split; [|reflexivity].
        rewrite last_lookup. exact El.
    + apply last_None in El. discriminate.
Qed.

(** C4: [getWeightedRandomChoice] throws exactly on the empty
    distribution, with the message of the source.  On a non-empty one it
    takes one draw [r] from the stream (the stream it leaves is the one
    after a single [next()]) and returns the value of the first entry whose
    running sum strictly exceeds [r], or of the last entry when there is
    none. *)
Theorem getWeightedRandomChoice_spec
    (distribution : list DemandDistributionItem) (g : SeededRandom) :
  ((exists e, getWeightedRandomChoice distribution g = Throw e) <->
   distribution = []) /\
  match distribution with
  | [] =>
      getWeightedRandomChoice distribution g =
      Throw (Error "Distribution cannot be empty.")
  | _ :: _ =>
      exists v,
        getWeightedRandomChoice distribution g = Ok (v, snd (next g)) /\
        chosen distribution (fst (next g)) v
  end.
Proof.
  destruct distribution as [|item rest].
  - split; [|reflexivity]. split; [reflexivity|]. intros _. eexists. reflexivity.
  - pose proof (choice_nonempty item rest g) as Hmain.
    split; [|exact Hmain].
    destruct Hmain as (v & Hv & _). split; [|discriminate].
    intros [e He]. rewrite Hv in He. discriminate.
Qed.

(** The spec's example: over [{0, 0.5}, {10, 0.5}] a draw of 0.3 yields 0
    and a draw of 0.7 yields 10; a draw of 1 or more falls through. *)
Example walk_half_half :
  let d := [ {| value := 0; probability := 1 # 2 |};
             {| value := 10; probability := 1 # 2 |} ] in
  walk (3 # 10) 0 d = Some 0 /\ walk (7 # 10) 0 d = Some 10 /\
  walk 1 0 d = None.
Proof. repeat split. Qed.

End WeightedChoice.

(** ** The vehicle *)

Section Vehicle.
Import Ev.

(** In exact arithmetic [charge] keeps a vehicle within its need: on a
    vehicle with 0 <= received <= needed and a nonnegative amount it returns
    min(amount, needed - received), which is nonnegative, adds what it
    returns to [energyReceivedKwh], leaves [id] and [energyNeededKwh] alone,
    and 0 <= received <= needed holds again. *)
Lemma charge_exact (ev : ElectricVehicle) (amount : Q) :
  0 <= energyReceivedKwh ev -> energyReceivedKwh ev <= energyNeededKwh ev ->
  0 <= amount ->
  let returned := fst (charge ev amount) in
  let ev' := snd (charge ev amount) in
  returned == Qmin amount (energyNeededKwh ev - energyReceivedKwh ev) /\
  0 <= returned /\
  energyReceivedKwh ev' == energyReceivedKwh ev + returned /\
  id ev' = id ev /\ energyNeededKwh ev' = energyNeededKwh ev /\
  0 <= energyReceivedKwh ev' /\ energyReceivedKwh ev' <= energyNeededKwh ev'.
Proof.
  intros H0 H1 Ha. cbn [charge fst snd id energyNeededKwh energyReceivedKwh].
  set (room := energyNeededKwh ev - energyReceivedKwh ev).
  assert (0 <= room) as Hroom by (unfold room; lra).
  assert (0 <= Qmin amount room) as Hmin.
  { apply Q.min_glb; assumption. }
  pose proof (Q.le_min_r amount room) as Hr.
  repeat split; try reflexivity; unfold room in *; lra.
Qed.

(** The spec's first example: [charge(15)] on a vehicle needing 10 returns
    10 and leaves it fully charged. *)
Lemma charge_15_of_10 :
  fst (charge (new 1 10) 15) == 10 /\
  energyReceivedKwh (snd (charge (new 1 10) 15)) == 10 /\
  isFullyCharged (snd (charge (new 1 10) 15)) = true.
Proof.
  assert (0 <= energyReceivedKwh (new 1 10)) as H0 by (cbn; lra).
  assert (energyReceivedKwh (new 1 10) <= energyNeededKwh (new 1 10)) as H1
    by (cbn; lra).
  assert (0 <= 15) as Ha by lra.
  destruct (charge_exact (new 1 10) 15 H0 H1 Ha) as (Hret & _ & Hrec & _).
  split; [|split].
  - rewrite Hret. reflexivity.
  - rewrite Hrec, Hret. reflexivity.
  - reflexivity.
Qed.

(** C5, as the code keeps it: on a vehicle with 0 <= received <= needed and
    a nonnegative amount, [charge] returns min(amount, needed - received),
    which is between 0 and the amount, adds what it returns to
    [energyReceivedKwh], leaves [id] and [energyNeededKwh] alone, and
    [energyReceivedKwh] stays nonnegative and does not decrease.  That it
    stays at most [energyNeededKwh] is not part of it: the sum is rounded,
    as the next lemma but one shows. *)
Theorem charge_contract (ev : ElectricVehicle) (amount : Q) :
  0 <= energyReceivedKwh ev -> energyReceivedKwh ev <= energyNeededKwh ev ->
  0 <= amount ->
  let returned := fst (charge ev amount) in
  let ev' := snd (charge ev amount) in
  returned == Qmin amount (energyNeededKwh ev - energyReceivedKwh ev) /\
  0 <= returned /\ returned <= amount /\
  energyReceivedKwh ev' == energyReceivedKwh ev + returned /\
  id ev' = id ev /\ energyNeededKwh ev' = energyNeededKwh ev /\
  0 <= energyReceivedKwh ev' /\ energyReceivedKwh ev <= energyReceivedKwh ev'.
Proof.
  intros H0 H1 Ha. cbn [charge fst snd id energyNeededKwh energyReceivedKwh].
  set (room := energyNeededKwh ev - energyReceivedKwh ev).
  assert (0 <= room) as Hroom by (unfold room; lra).
  assert (0 <= Qmin amount room) as Hmin.
  { apply Q.min_glb; assumption. }
  pose proof (Q.le_min_l amount room) as Hl.
  repeat split; try reflexivity; try assumption; lra.
Qed.

Lemma charge_contract_witness :
  let returned := fst (charge (new 1 10) 4) in
  let ev' := snd (charge (new 1 10) 4) in
  returned == Qmin 4 (energyNeededKwh (new 1 10) - energyReceivedKwh (new 1 10)) /\
  0 <= returned /\ returned <= 4 /\
  energyReceivedKwh ev' == energyReceivedKwh (new 1 10) + returned /\
  id ev' = id (new 1 10) /\ energyNeededKwh ev' = energyNeededKwh (new 1 10) /\
  0 <= energyReceivedKwh ev' /\
  energyReceivedKwh (new 1 10) <= energyReceivedKwh ev'.
Proof.
  apply (charge_contract (new 1 10) 4); cbn; lra.
Defined.

(** C5, as the spec words it, fails on the program's doubles.  The vehicle
    with need 1 + 3 * 2^-52 that has received 1.5 * 2^-52 is within its
    need; [charge(5)] computes the room 1 + 2^-51 (the difference, rounded)
    and adds it, and the sum rounds to 1 + 2^-50: the vehicle has then
    received more than it needs, and the next [charge(3)] returns
    -2^-52, a negative amount. *)
Lemma charge_exceeds_need_in_doubles :
  (0 <=? 0x1.8p-52)%float = true /\
  (0x1.8p-52 <=? 0x1.0000000000003p+0)%float = true /\
  (0 <=? 5)%float = true /\
  Double.charge
    {| Double.ev_id := 1;
       Double.energyNeededKwh := 0x1.0000000000003p+0;
       Double.energyReceivedKwh := 0x1.8p-52 |} 5%float =
  (0x1.0000000000002p+0%float,
   {| Double.ev_id := 1;
      Double.energyNeededKwh := 0x1.0000000000003p+0;
      Double.energyReceivedKwh := 0x1.0000000000004p+0 |}) /\
  (0x1.0000000000003p+0 <? 0x1.0000000000004p+0)%float = true /\
  fst (Double.charge
         {| Double.ev_id := 1;
            Double.energyNeededKwh := 0x1.0000000000003p+0;
            Double.energyReceivedKwh := 0x1.0000000000004p+0 |} 3%float) =
  (-0x1p-52)%float.
Proof. repeat split; vm_compute; reflexivity. Qed.

(** The spec's second example: two [charge(4)] on a vehicle needing 10
    leave 8 received, not fully charged. *)
Example charge_4_twice :
  let ev := snd (charge (snd (charge (new 1 10) 4)) 4) in
  energyReceivedKwh ev == 8 /\ isFullyCharged ev = false.
Proof. split; reflexivity. Qed.

(** What [charge] returns is what [energyReceivedKwh] grows by, whatever
    the vehicle and the amount. *)
Lemma charge_received (ev : ElectricVehicle) (amount : Q) :
  energyReceivedKwh (snd (charge ev amount)) ==
  energyReceivedKwh ev + fst (charge ev amount).
Proof. reflexivity. Qed.

End Vehicle.

(** ** The chargepoint and the station *)

Section ChargepointStation.
Import Chargepoint Station.



(** Called with [null] or [undefined] on an occupied chargepoint, [assignEV]
    does not return: building the log message throws. *)
Lemma assignEV_occupied_null (vehicles : store) (cp : Chargepoint) (ev : nat) :
  isAvailable cp = false -> vehicles !! ev = None ->
  assignEV vehicles cp ev = Throw TypeError.
Proof. intros H Hv. unfold assignEV. rewrite H, Hv. reflexivity. Qed.

Lemma find_first (cps : list Chargepoint) :
  match List.find isAvailable cps with
  | Some c =>
      exists i,
        cps !! i = Some c /\ isAvailable c = true /\
        forall j c', (j < i)%nat -> cps !! j = Some c' -> isAvailable c' = false
  | None => forall c, c ∈ cps -> isAvailable c = false
  end.
Proof.
  induction cps as [|c0 rest IH]; cbn [List.find].
  - intros c Hc. inversion Hc.
  - destruct (isAvailable c0) eqn:E0.
    + exists 0%nat. repeat split; [exact E0|]. intros j c' Hj. lia.
    + destruct (List.find isAvailable rest) as [c|].
      * destruct IH as (i & Hi & Hc & Hmin). exists (S i).
        repeat split; [exact Hi | exact Hc |].
        intros [|j] c' Hj Hl; cbn in Hl.
        -- congruence.
        -- apply (Hmin j c'); [lia | exact Hl].
      * intros c Hc. apply elem_of_cons in Hc as [->|Hc]; [exact E0|].
        now apply IH.
Qed.

(** C8: [findAvailableChargepoint] returns the idle chargepoint of lowest
    index, and none exactly when every chargepoint is occupied; when
    chargepoints 0 and 1 are both idle it returns chargepoint 0. *)
Theorem findAvailableChargepoint_first_fit (s : ChargingStation) :
  match findAvailableChargepoint s with
  | Some c =>
      exists i,
        chargepoints s !! i = Some c /\ isAvailable c = true /\
        forall j c', (j < i)%nat -> chargepoints s !! j = Some c' ->
                     isAvailable c' = false
  | None => forall c, c ∈ chargepoints s -> isAvailable c = false
  end /\
  (findAvailableChargepoint s = None <->
   forall c, c ∈ chargepoints s -> isAvailable c = false) /\
  forall c0 c1,
    chargepoints s !! 0%nat = Some c0 -> chargepoints s !! 1%nat = Some c1 ->
    isAvailable c0 = true -> isAvailable c1 = true ->
    findAvailableChargepoint s = Some c0.
Proof.
  unfold findAvailableChargepoint. pose proof (find_first (chargepoints s)) as H.
  split; [exact H|]. split.
  - destruct (List.find isAvailable (chargepoints s)) as [c|].
    + split; [discriminate|]. intros Hall.
      destruct H as (i & Hi & Hc & _).
      apply list_elem_of_lookup_2 in Hi. apply Hall in Hi. congruence.
    + split; [intros _; exact H | reflexivity].
  - intros c0 c1 H0 _ A0 _.
    destruct (chargepoints s) as [|c rest]; [discriminate|].
    cbn in H0. injection H0 as ->. cbn [List.find]. now rewrite A0.
Qed.

Lemma findAvailableChargepoint_first_fit_witness :
  findAvailableChargepoint (Station.new 2) = Some (Chargepoint.new 0).
Proof.
  apply (proj2 (proj2 (findAvailableChargepoint_first_fit (Station.new 2)))
           (Chargepoint.new 0) (Chargepoint.new 1));
    reflexivity.
Defined.

(** A station fresh from its constructor has [numChargepoints]
    chargepoints, all idle, chargepoint [i] carrying id [i]. *)
Lemma new_station (n i : nat) :
  (i < n)%nat -> chargepoints (Station.new n) !! i = Some (Chargepoint.new i).
Proof.
  intros Hi. unfold Station.new; cbn [chargepoints].
  rewrite list_lookup_fmap, lookup_seq_lt by exact Hi. reflexivity.
Qed.

End ChargepointStation.

(** ** Release on completion *)

Section Release.
Import Chargepoint Station.

(** What [processChargingTick] does on an occupied chargepoint whose
    reference points at a vehicle. *)
Lemma processChargingTick_occupied (vehicles : store) (cp : Chargepoint)
    (r : nat) (ev : Ev.ElectricVehicle) :
  currentEV cp = Some r -> vehicles !! r = Some ev ->
  let charged := Ev.charge ev (powerKw cp * (1 / Qnat Config.TICKS_PER_HOUR)) in
  processChargingTick vehicles cp =
  (fst charged,
   if Ev.isFullyCharged (snd charged) then releaseEV cp else cp,
   <[r := snd charged]> vehicles).
Proof.
  intros Hcp Hr. unfold processChargingTick. rewrite Hcp, Hr.
  destruct (Ev.charge ev _) as [d ev'] eqn:E; cbn [fst snd].
  destruct (Ev.isFullyCharged ev'); reflexivity.
Qed.

(** An idle chargepoint put at index [i] is found, and it is the one
    returned when everything before it is occupied. *)
Lemma find_after_release (cps : list Chargepoint) (i : nat) (cp' : Chargepoint) :
  (i < length cps)%nat -> isAvailable cp' = true ->
  (exists c, List.find isAvailable (<[i := cp']> cps) = Some c) /\
  ((forall j c, (j < i)%nat -> cps !! j = Some c -> isAvailable c = false) ->
   List.find isAvailable (<[i := cp']> cps) = Some cp').
Proof.
  intros Hi Hav.
  assert (<[i := cp']> cps !! i = Some cp') as Hat
    by (now apply list_lookup_insert_eq).
  pose proof (find_first (<[i := cp']> cps)) as H.
  destruct (List.find isAvailable (<[i := cp']> cps)) as [c|].
  - split; [now exists c|]. intros Hbefore.
    destruct H as (k & Hk & Hc & Hmin).
    destruct (Nat.lt_trichotomy k i) as [Hlt | [-> | Hgt]].
    + rewrite list_lookup_insert_ne in Hk by lia.
      rewrite (Hbefore k c Hlt Hk) in Hc. discriminate.
    + congruence.
    + rewrite (Hmin i cp' Hgt Hat) in Hav. discriminate.
  - apply list_elem_of_lookup_2 in Hat. rewrite (H cp' Hat) in Hav.
    discriminate.
Qed.

(** C6: when [processChargingTick] on an occupied chargepoint leaves the
    held vehicle fully charged (received >= needed - 0.0001), the
    chargepoint it returns holds no vehicle.  In a station that has the
    chargepoint at index [i], [findAvailableChargepoint] then finds an idle
    chargepoint, and finds this one when all chargepoints before it are
    occupied. *)
Theorem processChargingTick_releases (vehicles : store) (cp : Chargepoint)
    (r : nat) (ev : Ev.ElectricVehicle)
    (delivered : Q) (cp' : Chargepoint) (vehicles' : store) (ev' : Ev.ElectricVehicle) :
  currentEV cp = Some r -> vehicles !! r = Some ev ->
  processChargingTick vehicles cp = (delivered, cp', vehicles') ->
  vehicles' !! r = Some ev' ->
  Ev.energyNeededKwh ev' - (1 # 10000) <= Ev.energyReceivedKwh ev' ->
  currentEV cp' = None /\ isAvailable cp' = true /\
  forall (s : ChargingStation) (i : nat),
    chargepoints s !! i = Some cp ->
    let s' := {| chargepoints := <[i := cp']> (chargepoints s) |} in
    (exists c, findAvailableChargepoint s' = Some c) /\
    ((forall j c, (j < i)%nat -> chargepoints s !! j = Some c ->
                  isAvailable c = false) ->
     findAvailableChargepoint s' = Some cp').
Proof.
  intros Hcp Hr Hp Hr' Hfull.
  rewrite (processChargingTick_occupied vehicles cp r ev Hcp Hr) in Hp.
  injection Hp as Hd Hc Hv.
  assert (r < length vehicles)%nat as Hlen by (eapply lookup_lt_Some; eauto).
  rewrite <- Hv, list_lookup_insert_eq in Hr' by exact Hlen.
  injection Hr' as Hev'.
  assert (Ev.isFullyCharged ev' = true) as Hf
    by (unfold Ev.isFullyCharged; now apply Qle_bool_iff).
  rewrite Hev', Hf in Hc.
  assert (currentEV cp' = None) as Hnone.
  { rewrite <- Hc. unfold releaseEV. rewrite Hcp. reflexivity. }
  assert (isAvailable cp' = true) as Hav
    by (unfold isAvailable; now rewrite Hnone).
  split; [exact Hnone|]. split; [exact Hav|].
  intros s i Hi. unfold findAvailableChargepoint; cbn [chargepoints].
  apply find_after_release; [|exact Hav].
  eapply lookup_lt_Some; eauto.
Qed.

Lemma processChargingTick_releases_witness :
  let cp := {| id := 1; powerKw := 11; currentEV := Some 0%nat |} in
  let cp' := {| id := 1; powerKw := 11; currentEV := None |} in
  let busy := {| id := 0; powerKw := 11; currentEV := Some 1%nat |} in
  findAvailableChargepoint
    {| chargepoints := <[1%nat := cp']> [busy; cp] |} = Some cp'.
Proof.
  intros cp cp' busy.
  pose (ev := {| Ev.id := 1; Ev.energyNeededKwh := 9 # 5;
                 Ev.energyReceivedKwh := 0 |}).
  pose (ev' := {| Ev.id := 1; Ev.energyNeededKwh := 9 # 5;
                  Ev.energyReceivedKwh := 0 + Qmin (11 * (1 / Qnat 4)) ((9 # 5) - 0) |}).
  assert (currentEV cp = Some 0%nat) as H1 by reflexivity.
  assert ([ev; Ev.new 2 18] !! 0%nat = Some ev) as H2 by reflexivity.
  assert (processChargingTick [ev; Ev.new 2 18] cp =
          (Qmin (11 * (1 / Qnat 4)) ((9 # 5) - 0), cp', [ev'; Ev.new 2 18])) as H3
    by reflexivity.
  assert ([ev'; Ev.new 2 18] !! 0%nat = Some ev') as H4 by reflexivity.
  assert (Ev.energyNeededKwh ev' - (1 # 10000) <= Ev.energyReceivedKwh ev') as H5.
  { apply Qle_bool_iff. reflexivity. }
  destruct (processChargingTick_releases _ _ _ _ _ _ _ _ H1 H2 H3 H4 H5)
    as (_ & _ & Hs).
  apply (proj2 (Hs {| chargepoints := [busy; cp] |} 1%nat eq_refl)).
  intros [|j] c Hj Hl; [|lia].
  cbn in Hl. injection Hl as <-. reflexivity.
Defined.

End Release.

(** ** The store under charging *)

Section Store.
Import Config Chargepoint Simulation Invariant.

Lemma Qnat_S (n : nat) : Qnat (S n) == Qnat n + 1.
Proof.
  unfold Qnat. rewrite Nat2Z.inj_succ. unfold Z.succ.
  rewrite inject_Z_plus. reflexivity.
Qed.

Lemma tick_fraction : 1 / Qnat TICKS_PER_HOUR == 1 # 4.
Proof. reflexivity. Qed.

Lemma energy_received_app (vs : store) (ev : Ev.ElectricVehicle) :
  energy_received (vs ++ [ev]) == energy_received vs + Ev.energyReceivedKwh ev.
Proof.
  induction vs as [|v vs IH]; cbn [app energy_received foldr].
  - ring.
  - fold (energy_received (vs ++ [ev])). fold (energy_received vs).
    rewrite IH. ring.
Qed.

Lemma energy_received_insert (vs : store) (r : nat) (ev ev' : Ev.ElectricVehicle) :
  vs !! r = Some ev ->
  energy_received (<[r := ev']> vs) ==
  energy_received vs - Ev.energyReceivedKwh ev + Ev.energyReceivedKwh ev'.
Proof.
  revert r. induction vs as [|v vs IH]; intros [|r] Hr; try discriminate.
  - cbn in Hr. injection Hr as ->. cbn [insert list_insert energy_received foldr].
    ring.
  - cbn in Hr. cbn [insert list_insert energy_received foldr].
    fold (energy_received (<[r := ev']> vs)). fold (energy_received vs).
    rewrite (IH r Hr). ring.
Qed.

Lemma charge_ok (ev : Ev.ElectricVehicle) (amount : Q) :
  vehicle_ok ev -> 0 <= amount ->
  vehicle_ok (snd (Ev.charge ev amount)) /\ 0 <= fst (Ev.charge ev amount).
Proof.
  unfold vehicle_ok. intros [H0 H1] Ha.
  cbn [Ev.charge fst snd Ev.energyNeededKwh Ev.energyReceivedKwh].
  set (room := Ev.energyNeededKwh ev - Ev.energyReceivedKwh ev).
  assert (0 <= Qmin amount room) as Hmin
    by (apply Q.min_glb; unfold room; lra).
  pose proof (Q.le_min_r amount room) as Hr. unfold room in *.
  repeat split; lra.
Qed.

Lemma new_vehicle_ok (i : nat) (needed : Q) :
  0 < needed -> vehicle_ok (Ev.new i needed).
Proof. unfold vehicle_ok; cbn. intros H. split; lra. Qed.

(** The effect of [processChargingTick], vehicle behind the reference or
    not: rated power kept, reference kept or dropped, store of the same
    length, and the energy returned is the energy the store gained. *)
Lemma processChargingTick_effect (vs : store) (cp : Chargepoint) :
  forall d cp' vs', processChargingTick vs cp = (d, cp', vs') ->
  powerKw cp' = powerKw cp /\
  (currentEV cp' = currentEV cp \/ currentEV cp' = None) /\
  length vs' = length vs /\
  energy_received vs' == energy_received vs + d /\
  (store_ok vs -> 0 <= powerKw cp -> store_ok vs' /\ 0 <= d).
Proof.
  intros d cp' vs'. unfold processChargingTick.
  destruct (currentEV cp) as [r|] eqn:Hcp.
  2:{ intros [= <- <- <-]. split; [reflexivity|]. split; [now left|].
      split; [reflexivity|]. split; [ring|]. intros Hok _.
      split; [exact Hok | apply Qle_refl]. }
  destruct (vs !! r) as [ev|] eqn:Hr.
  2:{ intros [= <- <- <-]. split; [reflexivity|]. split; [now left|].
      split; [reflexivity|]. split; [ring|]. intros Hok _.
      split; [exact Hok | apply Qle_refl]. }
  set (amount := powerKw cp * (1 / Qnat TICKS_PER_HOUR)).
  destruct (Ev.charge ev amount) as [e ev'] eqn:Ec.
  assert (Ev.energyReceivedKwh ev' == Ev.energyReceivedKwh ev + e) as Hrec.
  { pose proof (f_equal fst Ec) as E1. pose proof (f_equal snd Ec) as E2.
    cbn [fst snd] in E1, E2. rewrite <- E1, <- E2. reflexivity. }
  assert (powerKw cp' = powerKw cp /\
          (currentEV cp' = Some r \/ currentEV cp' = None) /\
          d = e /\ vs' = <[r := ev']> vs ->
          powerKw cp' = powerKw cp /\
          (currentEV cp' = Some r \/ currentEV cp' = None) /\
          length vs' = length vs /\
          energy_received vs' == energy_received vs + d /\
          (store_ok vs -> 0 <= powerKw cp -> store_ok vs' /\ 0 <= d)) as Hgoal.
  { intros (Hp & Hc & -> & ->). split; [exact Hp|]. split; [exact Hc|].
    split; [apply length_insert|]. split.
    - rewrite (energy_received_insert vs r ev ev' Hr), Hrec. ring.
    - intros Hok Hpow.
      assert (0 <= amount) as Ha.
      { unfold amount. rewrite tick_fraction.
        apply Qmult_le_0_compat; [exact Hpow | discriminate]. }
      destruct (Hok r ev Hr) as [Hev Hid].
      destruct (charge_ok ev amount Hev Ha) as [Hev' He].
      assert (Ev.id ev' = Ev.id ev) as Hid'
        by (pose proof (f_equal snd Ec) as E2; cbn [snd] in E2;
            now rewrite <- E2).
      rewrite Ec in Hev', He; cbn [fst snd] in Hev', He.
      split; [|exact He]. intros i v Hi.
      destruct (decide (r = i)) as [<-|Hne].
      + rewrite list_lookup_insert_eq in Hi by (eapply lookup_lt_Some; eauto).
        injection Hi as <-. split; [exact Hev' | congruence].
      + rewrite list_lookup_insert_ne in Hi by exact Hne. now apply Hok. }
  destruct (Ev.isFullyCharged ev'); intros [= <- <- <-]; apply Hgoal.
  - unfold releaseEV. rewrite Hcp. cbn. auto.
  - auto.
Qed.

(** In [run] the assignment of the vehicle just created succeeds: the
    chargepoint is idle and the need is positive. *)
Lemma assignEV_fresh (vs : store) (cp : Chargepoint) (i : nat) (needed : Q) :
  isAvailable cp = true -> 0 < needed ->
  assignEV (vs ++ [Ev.new i needed]) cp (length vs) =
  Ok (true, {| id := id cp; powerKw := powerKw cp; currentEV := Some (length vs) |}).
Proof.
  intros Hav Hpos. unfold assignEV. rewrite Hav. cbn [negb].
  rewrite lookup_app_r, Nat.sub_diag by lia. cbn [lookup list_lookup Ev.new Ev.energyNeededKwh].
  assert (Qeq_bool needed 0 = false) as E1.
  { apply not_true_iff_false. intros H. apply Qeq_bool_iff in H. lra. }
  assert (Qle_bool needed 0 = false) as E2.
  { apply not_true_iff_false. intros H. apply Qle_bool_iff in H. lra. }
  rewrite E1, E2. reflexivity.
Qed.

End Store.

(** ** One pass over the chargepoints *)

Section PassOverStation.
Import Config Chargepoint Simulation Invariant.

Lemma rated_nonneg (cp : Chargepoint) : rated cp -> 0 <= powerKw cp.
Proof. unfold rated. intros ->. discriminate. Qed.

Lemma ref_ok_grow (vs vs' : store) (cp : Chargepoint) :
  (length vs <= length vs')%nat -> ref_ok vs cp -> ref_ok vs' cp.
Proof. unfold ref_ok. intros Hl H r Hr. specialize (H r Hr). lia. Qed.

Lemma store_ok_alloc (vs : store) (needed : Q) :
  store_ok vs -> 0 < needed ->
  store_ok (vs ++ [Ev.new (S (length vs)) needed]).
Proof.
  intros Hok Hpos i ev Hi.
  destruct (decide (i < length vs)%nat) as [Hlt|Hge].
  - rewrite lookup_app_l in Hi by exact Hlt. now apply Hok.
  - rewrite lookup_app_r in Hi by lia.
    destruct (i - length vs)%nat as [|k] eqn:Ek; [|destruct k; discriminate].
    cbn in Hi. injection Hi as <-. split; [now apply new_vehicle_ok|].
    cbn. lia.
Qed.

(** Nothing but the random stream moved. *)
Lemma handled_same (cp : Chargepoint) (p p' : Pass) :
  rated cp -> ref_ok (p_vehicles p) cp -> store_ok (p_vehicles p) ->
  p_nextEvId p = S (length (p_vehicles p)) ->
  p_vehicles p' = p_vehicles p -> p_nextEvId p' = p_nextEvId p ->
  totalEnergyDeliveredThisTick p' = totalEnergyDeliveredThisTick p ->
  handled cp p cp p'.
Proof.
  intros Hrated Href Hstore Hnext Hv Hn He. unfold handled.
  rewrite Hv, Hn, He.
  split; [exact Hrated|]. split; [exact Href|]. split; [exact Hstore|].
  split; [exact Hnext|]. split; [lia|]. split; [reflexivity | apply Qle_refl].
Qed.

Lemma arrive_or_charge_effect (currentHour : nat) (cp : Chargepoint) (p : Pass) :
  rated cp -> ref_ok (p_vehicles p) cp -> store_ok (p_vehicles p) ->
  p_nextEvId p = S (length (p_vehicles p)) ->
  exists cp' p',
    arrive_or_charge currentHour cp p = Ok (cp', p') /\
    handled cp p cp' p' /\
    currentPowerDemandThisTick p' = currentPowerDemandThisTick p.
Proof.
  intros Hrated Href Hstore Hnext. unfold arrive_or_charge.
  destruct (isAvailable cp) eqn:Hav.
  - destruct (Random.next (p_random p)) as [r g].
    destruct (arrival r _).
    2:{ do 2 eexists. split; [reflexivity|].
        split; [|reflexivity]. now apply handled_same. }
    destruct (choice_nonempty
                {| value := 0; probability := 3431 # 10000 |}
                (tail CHARGING_DEMAND_KM_DISTRIBUTION_T2) g) as (km & Hkm & _).
    change (_ :: tail CHARGING_DEMAND_KM_DISTRIBUTION_T2)
      with CHARGING_DEMAND_KM_DISTRIBUTION_T2 in Hkm.
    rewrite Hkm. cbn [bind].
    destruct (Qltb 0 (km / 100 * KWH_PER_100KM)) eqn:Hpos.
    2:{ do 2 eexists. split; [reflexivity|].
        split; [|reflexivity]. now apply handled_same. }
    apply Qltb_lt in Hpos. rewrite Hnext.
    rewrite (assignEV_fresh _ cp _ _ Hav Hpos). cbn [bind].
    set (vs1 := p_vehicles p ++ [Ev.new (S (length (p_vehicles p))) (km / 100 * KWH_PER_100KM)]).
    set (cp1 := {| id := id cp; powerKw := powerKw cp;
                   currentEV := Some (length (p_vehicles p)) |}).
    assert (store_ok vs1) as Hstore1 by (now apply store_ok_alloc).
    assert (length vs1 = S (length (p_vehicles p))) as Hlen1
      by (unfold vs1; rewrite length_app; cbn; lia).
    destruct (processChargingTick vs1 cp1) as [[d cp2] vs2] eqn:Ep.
    destruct (processChargingTick_effect vs1 cp1 d cp2 vs2 Ep)
      as (Hpow & Hcur & Hlen & Hen & Hok).
    destruct (Hok Hstore1 (rated_nonneg cp Hrated)) as [Hstore2 Hd].
    do 2 eexists. split; [reflexivity|].
    cbn [p_vehicles p_nextEvId totalEnergyDeliveredThisTick
         currentPowerDemandThisTick].
    split; [|reflexivity]. unfold handled.
    cbn [p_vehicles p_nextEvId totalEnergyDeliveredThisTick
         currentPowerDemandThisTick].
    split; [|split; [|split; [|split; [|split; [|split]]]]].
    + unfold rated in *. now rewrite Hpow.
    + intros x Hx. destruct Hcur as [Hc|Hc]; rewrite Hc in Hx; [|discriminate].
      cbn in Hx. injection Hx as <-. lia.
    + exact Hstore2.
    + lia.
    + lia.
    + rewrite Hen. unfold vs1. rewrite energy_received_app. cbn. ring.
    + lra.
  - destruct (processChargingTick (p_vehicles p) cp) as [[d cp1] vs1] eqn:Ep.
    destruct (processChargingTick_effect _ _ d cp1 vs1 Ep)
      as (Hpow & Hcur & Hlen & Hen & Hok).
    destruct (Hok Hstore (rated_nonneg cp Hrated)) as [Hstore1 Hd].
    do 2 eexists. split; [reflexivity|].
    cbn [p_vehicles p_nextEvId totalEnergyDeliveredThisTick
         currentPowerDemandThisTick].
    split; [|reflexivity]. unfold handled.
    cbn [p_vehicles p_nextEvId totalEnergyDeliveredThisTick
         currentPowerDemandThisTick].
    split; [|split; [|split; [|split; [|split; [|split]]]]].
    + unfold rated in *. now rewrite Hpow.
    + intros x Hx. rewrite Hlen.
      destruct Hcur as [Hc|Hc]; rewrite Hc in Hx; [now apply Href | discriminate].
    + exact Hstore1.
    + lia.
    + lia.
    + rewrite Hen. ring.
    + lra.
Qed.

Lemma visit_effect (currentHour : nat) (cp : Chargepoint) (p : Pass) :
  rated cp -> ref_ok (p_vehicles p) cp -> store_ok (p_vehicles p) ->
  p_nextEvId p = S (length (p_vehicles p)) ->
  exists cp' p',
    visit currentHour cp p = Ok (cp', p') /\
    handled cp p cp' p' /\
    currentPowerDemandThisTick p' <=
      currentPowerDemandThisTick p + POWER_PER_CHARGEPOINT_KW.
Proof.
  intros Hrated Href Hstore Hnext. unfold visit.
  destruct (arrive_or_charge_effect currentHour cp p Hrated Href Hstore Hnext)
    as (cp' & p' & -> & Hh & Hp).
  cbn [bind].
  destruct (negb (isAvailable cp')); do 2 eexists; (split; [reflexivity|]).
  - split; [exact Hh|]. cbn [currentPowerDemandThisTick].
    destruct Hh as (Hr & _). unfold rated in Hr. rewrite Hr, Hp. apply Qle_refl.
  - split; [exact Hh|]. rewrite Hp.
    assert (0 <= POWER_PER_CHARGEPOINT_KW) by discriminate. lra.
Qed.

End PassOverStation.

(** ** The run *)

Section Run.
Import Config Chargepoint Simulation Invariant.

Lemma visit_all_effect (currentHour : nat) (cps : list Chargepoint) :
  forall p,
    station_ok cps (p_vehicles p) ->
    p_nextEvId p = S (length (p_vehicles p)) ->
    exists cps' p',
      visit_all currentHour cps p = Ok (cps', p') /\
      station_ok cps' (p_vehicles p') /\
      p_nextEvId p' = S (length (p_vehicles p')) /\
      length cps' = length cps /\
      (length (p_vehicles p) <= length (p_vehicles p'))%nat /\
      energy_received (p_vehicles p') - totalEnergyDeliveredThisTick p' ==
      energy_received (p_vehicles p) - totalEnergyDeliveredThisTick p /\
      totalEnergyDeliveredThisTick p <= totalEnergyDeliveredThisTick p' /\
      currentPowerDemandThisTick p' <=
        currentPowerDemandThisTick p +
        Qnat (length cps) * POWER_PER_CHARGEPOINT_KW.
Proof.
  induction cps as [|cp rest IH]; intros p (Hrated & Href & Hstore) Hnext.
  - exists [], p. cbn [visit_all length].
    split; [reflexivity|]. split; [now split|]. split; [exact Hnext|].
    split; [reflexivity|]. split; [lia|]. split; [reflexivity|].
    split; [apply Qle_refl|].
    assert (Qnat 0 * POWER_PER_CHARGEPOINT_KW == 0) as -> by reflexivity. lra.
  - cbn [visit_all].
    apply Forall_cons in Hrated as [Hr Hrated].
    apply Forall_cons in Href as [Hf Href].
    destruct (visit_effect currentHour cp p Hr Hf Hstore Hnext)
      as (cp1 & p1 & -> & (Hr1 & Hf1 & Hs1 & Hn1 & Hl1 & He1 & Hm1) & Hp1).
    cbn [bind].
    assert (station_ok rest (p_vehicles p1)) as Hrest.
    { split; [exact Hrated|]. split; [|exact Hs1].
      eapply Forall_impl; [exact Href|]. intros c. now apply ref_ok_grow. }
    destruct (IH p1 Hrest Hn1)
      as (rest2 & p2 & -> & (Hr2 & Hf2 & Hs2) & Hn2 & Hlen2 & Hl2 & He2 & Hm2 & Hp2).
    cbn [bind]. exists (cp1 :: rest2), p2.
    split; [reflexivity|]. split.
    { split; [now constructor|]. split; [|exact Hs2].
      constructor; [|exact Hf2]. now apply (ref_ok_grow (p_vehicles p1)). }
    split; [exact Hn2|]. split; [cbn [length]; lia|]. split; [lia|].
    split; [rewrite He2; exact He1|]. split; [lra|].
    cbn [length]. rewrite Qnat_S. lra.
Qed.

Lemma recordTickData_total (s : Statistics.SimulationStatistics) (e pw : Q) :
  Statistics.totalEnergyConsumedKwh (Statistics.recordTickData s e pw) =
  Statistics.totalEnergyConsumedKwh s + e.
Proof. reflexivity. Qed.

(** The running maximum is the larger of the old one and the tick's power. *)
Lemma recordTickData_max (s : Statistics.SimulationStatistics) (e pw : Q) :
  let m := Statistics.actualMaxPowerDemandKw s in
  let m' := Statistics.actualMaxPowerDemandKw (Statistics.recordTickData s e pw) in
  m <= m' /\ pw <= m' /\ (m' = m \/ m' = pw).
Proof.
  cbn [Statistics.recordTickData Statistics.actualMaxPowerDemandKw].
  destruct (Qltb (Statistics.actualMaxPowerDemandKw s) pw) eqn:E.
  - apply Qltb_lt in E. repeat split; [lra | lra | now right].
  - apply Qltb_ge in E. repeat split; [lra | lra | now left].
Qed.

(** One tick: it completes, keeps the invariant, and moves neither total
    backwards. *)
Lemma step_effect (sim : EVChargingSimulation) (tick : nat) :
  engine_ok sim ->
  exists sim',
    step sim tick = Ok sim' /\ engine_ok sim' /\
    numChargepoints sim' = numChargepoints sim /\
    maxTicksToSimulate sim' = maxTicksToSimulate sim /\
    Statistics.totalEnergyConsumedKwh (stats sim) <=
      Statistics.totalEnergyConsumedKwh (stats sim') /\
    Statistics.actualMaxPowerDemandKw (stats sim) <=
      Statistics.actualMaxPowerDemandKw (stats sim').
Proof.
  intros (Hst & Hlen & Hnext & Hcons & Hmax). unfold step.
  set (p0 := {| p_random := randomGenerator sim;
                p_nextEvId := nextEvId sim;
                p_vehicles := vehicles sim;
                totalEnergyDeliveredThisTick := 0;
                currentPowerDemandThisTick := 0 |}).
  destruct (visit_all_effect
              ((tick mod (HOURS_PER_DAY * TICKS_PER_HOUR)) / TICKS_PER_HOUR)
              (Station.chargepoints (station sim)) p0 Hst Hnext)
    as (cps' & p' & -> & Hst' & Hn' & Hlen' & _ & He & Hm & Hp).
  cbn [bind]. eexists. split; [reflexivity|].
  cbn [p0 p_vehicles totalEnergyDeliveredThisTick currentPowerDemandThisTick] in He, Hm, Hp.
  pose proof (recordTickData_max (stats sim) (totalEnergyDeliveredThisTick p')
                (currentPowerDemandThisTick p')) as (Hmono & _ & Hwhich).
  split; [|split; [reflexivity|split; [reflexivity|split]]].
  - unfold engine_ok.
    cbn [station vehicles stats numChargepoints nextEvId Station.chargepoints].
    split; [exact Hst'|]. split; [lia|]. split; [exact Hn'|]. split.
    + rewrite recordTickData_total, Hcons. lra.
    + rewrite Hlen in Hp.
      destruct Hwhich as [-> | ->]; [exact Hmax | lra].
  - cbn [stats]. rewrite recordTickData_total. lra.
  - exact Hmono.
Qed.

Lemma run_ticks_effect (sim : EVChargingSimulation) (n : nat) :
  engine_ok sim ->
  exists sim',
    run_ticks n sim = Ok sim' /\ engine_ok sim' /\
    numChargepoints sim' = numChargepoints sim /\
    maxTicksToSimulate sim' = maxTicksToSimulate sim.
Proof.
  intros Hok. induction n as [|n IH]; cbn [run_ticks].
  - exists sim. auto.
  - destruct IH as (sim1 & -> & Hok1 & Hn1 & Hm1). cbn [bind].
    destruct (step_effect sim1 n Hok1) as (sim2 & -> & Hok2 & Hn2 & Hm2 & _).
    exists sim2. split; [reflexivity|]. split; [exact Hok2|].
    split; congruence.
Qed.

(** The engine fresh from its constructor. *)
Lemma new_engine_ok (numChargepoints0 : nat) (options : SimulationOptions) :
  engine_ok (Simulation.new numChargepoints0 options).
Proof.
  unfold engine_ok, Simulation.new, station_ok.
  cbn [station vehicles stats numChargepoints nextEvId].
  split; [split; [|split]|split; [|split; [|split]]].
  - unfold Station.new; cbn [Station.chargepoints].
    apply Forall_fmap, Forall_forall. intros i _. reflexivity.
  - unfold Station.new; cbn [Station.chargepoints].
    apply Forall_fmap, Forall_forall. intros i _ r Hr. discriminate.
  - intros i ev Hi. destruct i; discriminate.
  - unfold Station.new; cbn [Station.chargepoints].
    now rewrite length_fmap, length_seq.
  - reflexivity.
  - reflexivity.
  - cbn [Statistics.new Statistics.reset Statistics.actualMaxPowerDemandKw].
    apply Qmult_le_0_compat; [|discriminate].
    unfold Qnat. rewrite <- (Zle_Qle 0). lia.
Qed.

(** C1, in exact arithmetic: every run completes, and at its end
    [totalEnergyConsumedKwh], computed without rounding, is the sum of the
    final [energyReceivedKwh] of the vehicles in the store, which are the
    vehicles the run created: [nextEvId - 1] of them, the one at position
    [i] created with id [i + 1]. *)
Theorem conservation (numChargepoints0 : nat) (options : SimulationOptions) :
  exists sim,
    run (Simulation.new numChargepoints0 options) = Ok sim /\
    Statistics.totalEnergyConsumedKwh (stats sim) ==
      energy_received (vehicles sim) /\
    length (vehicles sim) = (nextEvId sim - 1)%nat /\
    forall i ev, vehicles sim !! i = Some ev -> Ev.id ev = S i.
Proof.
  unfold run.
  destruct (run_ticks_effect (Simulation.new numChargepoints0 options)
              (maxTicksToSimulate (Simulation.new numChargepoints0 options))
              (new_engine_ok numChargepoints0 options))
    as (sim & Hrun & ((_ & _ & Hstore) & _ & Hnext & Hcons & _) & _).
  exists sim. split; [exact Hrun|]. split; [exact Hcons|]. split; [lia|].
  intros i ev Hi. now apply Hstore.
Qed.

(** C1, as the spec words it, fails on the program's doubles.  The run of
    60 ticks with one chargepoint and seed 4 creates two vehicles, each
    needing and receiving 3.6 kWh; their sum, in either order, is the
    double 7.2, and [totalEnergyConsumedKwh], added up tick by tick, is the
    double just below it, 7.199999999999999. *)
Lemma conservation_fails_in_doubles :
  exists sim,
    Double.run (Double.new 1 {| opt_seed := Some 4%Z; opt_maxTicks := Some 60%nat |})
      = Ok sim /\
    map (fun ev => (Double.energyNeededKwh ev, Double.energyReceivedKwh ev))
        (Double.vehicles sim)
      = [(0x1.ccccccccccccdp+1, 0x1.ccccccccccccdp+1);
         (0x1.ccccccccccccdp+1, 0x1.ccccccccccccdp+1)]%float /\
    Double.totalEnergyConsumedKwh (Double.stats sim) = 0x1.cccccccccccccp+2%float /\
    Double.energy_received (Double.vehicles sim) = 0x1.ccccccccccccdp+2%float /\
    Double.energy_received_backwards (Double.vehicles sim)
      = 0x1.ccccccccccccdp+2%float /\
    (Double.totalEnergyConsumedKwh (Double.stats sim)
       =? Double.energy_received (Double.vehicles sim))%float = false.
Proof.
  eexists. split; [vm_compute; reflexivity|].
  repeat split; vm_compute; reflexivity.
Qed.

(** C9: from the engine after [k] ticks to the engine after [k + 1] ticks
    neither [totalEnergyConsumedKwh] nor [actualMaxPowerDemandKw]
    decreases; both engines exist, for every [k]. *)
Theorem statistics_monotone (numChargepoints0 : nat)
    (options : SimulationOptions) (k : nat) :
  exists sim sim',
    run_ticks k (Simulation.new numChargepoints0 options) = Ok sim /\
    run_ticks (S k) (Simulation.new numChargepoints0 options) = Ok sim' /\
    Statistics.totalEnergyConsumedKwh (stats sim) <=
      Statistics.totalEnergyConsumedKwh (stats sim') /\
    Statistics.actualMaxPowerDemandKw (stats sim) <=
      Statistics.actualMaxPowerDemandKw (stats sim').
Proof.
  destruct (run_ticks_effect (Simulation.new numChargepoints0 options) k
              (new_engine_ok numChargepoints0 options))
    as (sim & Hrun & Hok & _).
  destruct (step_effect sim k Hok) as (sim' & Hstep & _ & _ & _ & Ht & Hm).
  exists sim, sim'. split; [exact Hrun|]. split.
  - cbn [run_ticks]. rewrite Hrun. exact Hstep.
  - split; [exact Ht | exact Hm].
Qed.

(** C10: every run completes with [actualMaxPowerDemandKw] at most
    [numChargepoints * POWER_PER_CHARGEPOINT_KW]. *)
Theorem max_power_bounded (numChargepoints0 : nat) (options : SimulationOptions) :
  exists sim,
    run (Simulation.new numChargepoints0 options) = Ok sim /\
    Statistics.actualMaxPowerDemandKw (stats sim) <=
      Qnat numChargepoints0 * POWER_PER_CHARGEPOINT_KW.
Proof.
  unfold run.
  destruct (run_ticks_effect (Simulation.new numChargepoints0 options)
              (maxTicksToSimulate (Simulation.new numChargepoints0 options))
              (new_engine_ok numChargepoints0 options))
    as (sim & Hrun & (_ & _ & _ & _ & Hmax) & Hn & _).
  exists sim. split; [exact Hrun|]. rewrite Hn in Hmax. exact Hmax.
Qed.

(** A short run evaluated: 20 chargepoints, the default seed, 60 ticks.
    Six vehicles arrive, one is still charging at the end. *)
Example run_60_ticks :
  exists sim,
    run (Simulation.new 20 {| opt_seed := None; opt_maxTicks := Some 60%nat |})
      = Ok sim /\
    length (vehicles sim) = 6%nat /\
    nextEvId sim = 7%nat /\
    Statistics.totalEnergyConsumedKwh (stats sim) == 939 # 20 /\
    energy_received (vehicles sim) == 939 # 20 /\
    Statistics.actualMaxPowerDemandKw (stats sim) == 22 /\
    Station.findAvailableChargepoint (station sim) = Some (Chargepoint.new 0).
Proof. eexists. split; [vm_compute; reflexivity|]. repeat split. Qed.

End Run.


(** ** What one visit does *)

Section VisitShape.
Import Config Chargepoint Simulation Invariant Ownership DistributionsSpec.

Lemma chosen_member (d : list DemandDistributionItem) (r v : Q) :
  chosen d r v -> exists item, item ∈ d /\ v = value item.
Proof.
  intros [(i & item & Hi & Hv & _) | (_ & item & Hl & Hv)].
  - exists item. split; [|exact Hv]. eapply list_elem_of_lookup_2; eauto.
  - exists item. split; [|exact Hv]. rewrite last_lookup in Hl.
    eapply list_elem_of_lookup_2; eauto.
Qed.

(** The three things the first [if]/[else] of the loop body can do: leave
    the chargepoint and the store alone; create a vehicle with a positive
    need from the table, assign it and charge it once; or charge the vehicle
    already held once. *)
Lemma arrive_or_charge_shape (currentHour : nat) (cp cp' : Chargepoint)
    (p p' : Pass) :
  arrive_or_charge currentHour cp p = Ok (cp', p') ->
  currentPowerDemandThisTick p' = currentPowerDemandThisTick p /\
  ((isAvailable cp = true /\ cp' = cp /\
    p_vehicles p' = p_vehicles p /\ p_nextEvId p' = p_nextEvId p /\
    totalEnergyDeliveredThisTick p' = totalEnergyDeliveredThisTick p)
   \/
   (isAvailable cp = true /\
    exists item d,
      item ∈ CHARGING_DEMAND_KM_DISTRIBUTION_T2 /\
      0 < value item / 100 * KWH_PER_100KM /\
      processChargingTick
        (p_vehicles p ++ [Ev.new (p_nextEvId p) (value item / 100 * KWH_PER_100KM)])
        {| id := id cp; powerKw := powerKw cp;
           currentEV := Some (length (p_vehicles p)) |} =
      (d, cp', p_vehicles p') /\
      p_nextEvId p' = S (p_nextEvId p) /\
      totalEnergyDeliveredThisTick p' = totalEnergyDeliveredThisTick p + d)
   \/
   (isAvailable cp = false /\
    exists d,
      processChargingTick (p_vehicles p) cp = (d, cp', p_vehicles p') /\
      p_nextEvId p' = p_nextEvId p /\
      totalEnergyDeliveredThisTick p' = totalEnergyDeliveredThisTick p + d)).
Proof.
  unfold arrive_or_charge. destruct (isAvailable cp) eqn:Hav.
  - destruct (Random.next (p_random p)) as [r g].
    destruct (arrival r _).
    2:{ intros [= <- <-]. split; [reflexivity|]. left. now repeat split. }
    destruct (choice_nonempty
                {| value := 0; probability := 3431 # 10000 |}
                (tail CHARGING_DEMAND_KM_DISTRIBUTION_T2) g) as (km & Hkm & Hch).
    change (_ :: tail CHARGING_DEMAND_KM_DISTRIBUTION_T2)
      with CHARGING_DEMAND_KM_DISTRIBUTION_T2 in Hkm, Hch.
    rewrite Hkm. cbn [bind].
    apply chosen_member in Hch as (item & Hin & ->).
    destruct (Qltb 0 (value item / 100 * KWH_PER_100KM)) eqn:Hpos.
    2:{ intros [= <- <-]. split; [reflexivity|]. left. now repeat split. }
    apply Qltb_lt in Hpos.
    rewrite (assignEV_fresh _ cp _ _ Hav Hpos). cbn [bind].
    destruct (processChargingTick _ _) as [[d cp2] vs2] eqn:Ep.
    intros [= <- <-]. split; [reflexivity|]. right; left.
    split; [reflexivity|]. exists item, d.
    cbn [p_vehicles p_nextEvId totalEnergyDeliveredThisTick]. now repeat split.
  - destruct (processChargingTick (p_vehicles p) cp) as [[d cp1] vs1] eqn:Ep.
    intros [= <- <-]. split; [reflexivity|]. right; right.
    split; [reflexivity|]. exists d.
    cbn [p_vehicles p_nextEvId totalEnergyDeliveredThisTick]. now repeat split.
Qed.

(** [visit] is [arrive_or_charge] followed by the power of the chargepoint
    when it ends up occupied. *)
Lemma visit_shape (currentHour : nat) (cp cp' : Chargepoint) (p p' : Pass) :
  visit currentHour cp p = Ok (cp', p') ->
  exists p1,
    arrive_or_charge currentHour cp p = Ok (cp', p1) /\
    p_vehicles p' = p_vehicles p1 /\ p_nextEvId p' = p_nextEvId p1 /\
    p_random p' = p_random p1 /\
    totalEnergyDeliveredThisTick p' = totalEnergyDeliveredThisTick p1 /\
    currentPowerDemandThisTick p' =
      if isAvailable cp' then currentPowerDemandThisTick p1
      else currentPowerDemandThisTick p1 + powerKw cp'.
Proof.
  unfold visit. destruct (arrive_or_charge currentHour cp p) as [[c1 p1]|e];
    cbn [bind]; [|discriminate].
  destruct (isAvailable c1) eqn:E; cbn [negb]; intros [= <- <-];
    exists p1; rewrite ?E; now repeat split.
Qed.

(** An invariant of the station and the pass state that every visit keeps,
    whatever the position visited, is kept by the whole pass. *)
Lemma visit_all_invariant (I : list Chargepoint -> Pass -> Prop)
    (currentHour : nat) :
  (forall cps k cp p cp' p',
      I cps p -> cps !! k = Some cp ->
      visit currentHour cp p = Ok (cp', p') -> I (<[k := cp']> cps) p') ->
  forall cps p cps' p',
    I cps p -> visit_all currentHour cps p = Ok (cps', p') -> I cps' p'.
Proof.
  intros Hstep.
  assert (forall rest pre p rest' p',
             I (pre ++ rest) p -> visit_all currentHour rest p = Ok (rest', p') ->
             I (pre ++ rest') p') as Hgen.
  { induction rest as [|cp rest IH]; intros pre p rest' p' HI; cbn [visit_all].
    - now intros [= <- <-].
    - destruct (visit currentHour cp p) as [[cp1 p1]|e] eqn:Ev; cbn [bind];
        [|discriminate].
      destruct (visit_all currentHour rest p1) as [[rest1 p2]|e] eqn:Er;
        cbn [bind]; [|discriminate].
      intros [= <- <-].
      pose proof (Hstep (pre ++ cp :: rest) (length pre) cp p cp1 p1 HI
                    (list_lookup_middle _ _ _ _ eq_refl) Ev) as H1.
      rewrite insert_app_r_alt, Nat.sub_diag in H1 by lia. cbn in H1.
      specialize (IH (pre ++ [cp1]) p1 rest1 p2).
      rewrite <- !app_assoc in IH. cbn in IH. now apply IH. }
  intros cps p cps' p'. apply (Hgen cps []).
Qed.

End VisitShape.

(** ** Exclusive ownership through a run *)

Section OwnershipProof.
Import Config Chargepoint Simulation Invariant Ownership.

Lemma holds_insert (cps : list Chargepoint) (k : nat) (cp cp' : Chargepoint)
    (r : nat) :
  cps !! k = Some cp ->
  holds (<[k := cp']> cps) r <->
  currentEV cp' = Some r \/
  exists i c, i <> k /\ cps !! i = Some c /\ currentEV c = Some r.
Proof.
  intros Hk. assert (k < length cps)%nat as Hlt by (eapply lookup_lt_Some; eauto).
  split.
  - intros (i & c & Hi & Hc). destruct (decide (i = k)) as [->|Hne].
    + rewrite list_lookup_insert_eq in Hi by exact Hlt. injection Hi as <-.
      now left.
    + rewrite list_lookup_insert_ne in Hi by congruence. right. now exists i, c.
  - intros [Hc | (i & c & Hne & Hi & Hc)].
    + exists k, cp'. split; [now apply list_lookup_insert_eq | exact Hc].
    + exists i, c. split; [|exact Hc]. now rewrite list_lookup_insert_ne by congruence.
Qed.

(** Charging the vehicle held at position [k].  The store may disagree with
    [wf_full] at the held vehicle itself, as it does between [assignEV] and
    the first [processChargingTick]. *)
Lemma charge_at (cps : list Chargepoint) (vs : store) (k : nat)
    (cp : Chargepoint) (r : nat) (ev : Ev.ElectricVehicle)
    (d : Q) (cp' : Chargepoint) (vs' : store) :
  cps !! k = Some cp -> currentEV cp = Some r -> vs !! r = Some ev ->
  (forall i c, cps !! i = Some c ->
               id c = i /\ powerKw c = POWER_PER_CHARGEPOINT_KW) ->
  (forall i c x, cps !! i = Some c -> currentEV c = Some x -> (x < length vs)%nat) ->
  (forall i j ci cj x, cps !! i = Some ci -> cps !! j = Some cj ->
                       currentEV ci = Some x -> currentEV cj = Some x -> i = j) ->
  (forall x v, vs !! x = Some v ->
               vehicle_ok v /\ 0 < Ev.energyNeededKwh v /\ demanded v /\ Ev.id v = S x) ->
  (forall x v, x <> r -> vs !! x = Some v ->
               (Ev.isFullyCharged v = false <-> holds cps x)) ->
  (forall x v, x <> r -> vs !! x = Some v -> 0 < Ev.energyReceivedKwh v) ->
  processChargingTick vs cp = (d, cp', vs') ->
  station_wf (<[k := cp']> cps) vs'.
Proof.
  intros Hk Hcp Hr Hident Href Hexcl Hstore Hfull Hcharged Hp.
  rewrite (processChargingTick_occupied vs cp r ev Hcp Hr) in Hp.
  set (amount := powerKw cp * (1 / Qnat TICKS_PER_HOUR)) in Hp.
  set (ev' := snd (Ev.charge ev amount)) in Hp.
  injection Hp as _ Hcp' Hvs'.
  assert (k < length cps)%nat as Hklt by (eapply lookup_lt_Some; eauto).
  assert (r < length vs)%nat as Hrlt by (eapply lookup_lt_Some; eauto).
  assert (id cp' = id cp /\ powerKw cp' = powerKw cp) as [Hid' Hpw'].
  { rewrite <- Hcp'. destruct (Ev.isFullyCharged ev'); [|auto].
    unfold releaseEV. rewrite Hcp. auto. }
  assert (currentEV cp' = if Ev.isFullyCharged ev' then None else Some r) as Hcur.
  { rewrite <- Hcp'. destruct (Ev.isFullyCharged ev'); [|exact Hcp].
    unfold releaseEV. rewrite Hcp. reflexivity. }
  assert (forall i c, i <> k -> cps !! i = Some c -> currentEV c <> Some r) as Honly.
  { intros i c Hne Hi Hc. apply Hne. exact (Hexcl i k c cp r Hi Hk Hc Hcp). }
  subst vs'. constructor.
  - intros i c Hi. destruct (decide (i = k)) as [->|Hne].
    + rewrite list_lookup_insert_eq in Hi by exact Hklt. injection Hi as <-.
      destruct (Hident k cp Hk). split; congruence.
    + rewrite list_lookup_insert_ne in Hi by congruence. now apply Hident.
  - intros i c x Hi Hc. rewrite length_insert.
    destruct (decide (i = k)) as [->|Hne].
    + rewrite list_lookup_insert_eq in Hi by exact Hklt. injection Hi as <-.
      rewrite Hcur in Hc. destruct (Ev.isFullyCharged ev'); [discriminate|].
      injection Hc as <-. exact Hrlt.
    + rewrite list_lookup_insert_ne in Hi by congruence. eapply Href; eauto.
  - intros i j ci cj x Hi Hj Hci Hcj.
    destruct (decide (i = k)) as [->|Hik]; destruct (decide (j = k)) as [->|Hjk];
      [reflexivity | | |].
    + rewrite list_lookup_insert_eq in Hi by exact Hklt. injection Hi as <-.
      rewrite list_lookup_insert_ne in Hj by congruence.
      rewrite Hcur in Hci. destruct (Ev.isFullyCharged ev'); [discriminate|].
      injection Hci as <-. destruct (Honly j cj Hjk Hj Hcj).
    + rewrite list_lookup_insert_eq in Hj by exact Hklt. injection Hj as <-.
      rewrite list_lookup_insert_ne in Hi by congruence.
      rewrite Hcur in Hcj. destruct (Ev.isFullyCharged ev'); [discriminate|].
      injection Hcj as <-. destruct (Honly i ci Hik Hi Hci).
    + rewrite list_lookup_insert_ne in Hi, Hj by congruence.
      eapply Hexcl; eauto.
  - intros x v Hx. destruct (decide (x = r)) as [->|Hne].
    + rewrite list_lookup_insert_eq in Hx by exact Hrlt. injection Hx as <-.
      destruct (Hstore r ev Hr) as (Hok & Hpos & Hdem & Hid).
      assert (0 <= amount) as Ha.
      { unfold amount. destruct (Hident k cp Hk) as [_ ->]. discriminate. }
      destruct (charge_ok ev amount Hok Ha) as [Hok' _].
      split; [exact Hok'|]. split; [exact Hpos|]. split; [exact Hdem | exact Hid].
    + rewrite list_lookup_insert_ne in Hx by congruence. now apply Hstore.
  - intros x v Hx. rewrite (holds_insert cps k cp cp' x Hk).
    destruct (decide (x = r)) as [->|Hne].
    + rewrite list_lookup_insert_eq in Hx by exact Hrlt. injection Hx as <-.
      rewrite Hcur. destruct (Ev.isFullyCharged ev').
      * split; [discriminate|]. intros [Hc | (i & c & Hi & Hl & Hc)];
          [discriminate | destruct (Honly i c Hi Hl Hc)].
      * split; [now left | reflexivity].
    + rewrite list_lookup_insert_ne in Hx by congruence.
      rewrite (Hfull x v Hne Hx). split.
      * intros (i & c & Hi & Hc). right. exists i, c.
        split; [|now split]. intros ->. congruence.
      * intros [Hc | (i & c & _ & Hi & Hc)]; [|now exists i, c].
        rewrite Hcur in Hc. destruct (Ev.isFullyCharged ev'); congruence.
  - intros x v Hx. destruct (decide (x = r)) as [->|Hne].
    + rewrite list_lookup_insert_eq in Hx by exact Hrlt. injection Hx as <-.
      destruct (Hstore r ev Hr) as ([H0 H1] & Hpos & _).
      assert (amount == 11 # 4) as Ha.
      { unfold amount. destruct (Hident k cp Hk) as [_ ->]. reflexivity. }
      unfold ev'. cbn [Ev.charge snd Ev.energyReceivedKwh].
      set (room := Ev.energyNeededKwh ev - Ev.energyReceivedKwh ev).
      destruct (Q.min_spec amount room) as [[_ ->] | [_ ->]]; unfold room; lra.
    + rewrite list_lookup_insert_ne in Hx by congruence.
      exact (Hcharged x v Hne Hx).
Qed.

Lemma isAvailable_false (cp : Chargepoint) :
  isAvailable cp = false -> exists r, currentEV cp = Some r.
Proof. unfold isAvailable. destruct (currentEV cp) as [r|]; [eauto | discriminate]. Qed.

Lemma isAvailable_true (cp : Chargepoint) :
  isAvailable cp = true -> currentEV cp = None.
Proof. unfold isAvailable. destruct (currentEV cp); [discriminate | reflexivity]. Qed.

(** Every visit keeps the station well formed. *)
Lemma visit_wf (currentHour : nat) (cps : list Chargepoint) (k : nat)
    (cp : Chargepoint) (p : Pass) (cp' : Chargepoint) (p' : Pass) :
  pass_wf cps p -> cps !! k = Some cp ->
  visit currentHour cp p = Ok (cp', p') ->
  pass_wf (<[k := cp']> cps) p'.
Proof.
  intros [Hwf Hnext] Hk Hv.
  destruct (visit_shape _ _ _ _ _ Hv) as (p1 & Ha & Hvs & Hn & _).
  unfold pass_wf. rewrite Hvs, Hn. clear Hv Hvs Hn p'.
  destruct (arrive_or_charge_shape _ _ _ _ _ Ha)
    as (_ & [(Hav & -> & Hvs & Hn & _) |
             [(Hav & item & d & Hin & Hpos & Hp & Hn & _) |
              (Hav & d & Hp & Hn & _)]]).
  - rewrite Hvs, Hn, list_insert_id by exact Hk. now split.
  - destruct Hwf as [Hident Href Hexcl Hstore Hfull Hcharged].
    apply isAvailable_true in Hav.
    set (vs := p_vehicles p) in *.
    set (new := Ev.new (p_nextEvId p) (value item / 100 * KWH_PER_100KM)) in *.
    set (cp1 := {| id := id cp; powerKw := powerKw cp;
                   currentEV := Some (length vs) |}) in *.
    assert (k < length cps)%nat as Hklt by (eapply lookup_lt_Some; eauto).
    assert ((vs ++ [new]) !! length vs = Some new) as Hnew.
    { rewrite lookup_app_r, Nat.sub_diag by lia. reflexivity. }
    assert (length (p_vehicles p1) = S (length vs)) as Hlen.
    { destruct (processChargingTick_effect _ _ _ _ _ Hp) as (_ & _ & -> & _).
      rewrite length_app. cbn. lia. }
    split; [|lia].
    rewrite <- (list_insert_insert_eq cps k cp' cp1).
    apply (charge_at (<[k := cp1]> cps) (vs ++ [new]) k cp1 (length vs) new d);
      try assumption.
    + now apply list_lookup_insert_eq.
    + reflexivity.
    + intros i c Hi. destruct (decide (i = k)) as [->|Hne].
      * rewrite list_lookup_insert_eq in Hi by exact Hklt. injection Hi as <-.
        exact (Hident k cp Hk).
      * rewrite list_lookup_insert_ne in Hi by congruence. now apply Hident.
    + intros i c x Hi Hc. rewrite length_app. cbn [length].
      destruct (decide (i = k)) as [->|Hne].
      * rewrite list_lookup_insert_eq in Hi by exact Hklt. injection Hi as <-.
        cbn in Hc. injection Hc as <-. lia.
      * rewrite list_lookup_insert_ne in Hi by congruence.
        pose proof (Href i c x Hi Hc). lia.
    + intros i j ci cj x Hi Hj Hci Hcj.
      destruct (decide (i = k)) as [->|Hik]; destruct (decide (j = k)) as [->|Hjk];
        [reflexivity | | |].
      * rewrite list_lookup_insert_eq in Hi by exact Hklt. injection Hi as <-.
        rewrite list_lookup_insert_ne in Hj by congruence.
        cbn in Hci. injection Hci as <-. pose proof (Href j cj _ Hj Hcj). lia.
      * rewrite list_lookup_insert_eq in Hj by exact Hklt. injection Hj as <-.
        rewrite list_lookup_insert_ne in Hi by congruence.
        cbn in Hcj. injection Hcj as <-. pose proof (Href i ci _ Hi Hci). lia.
      * rewrite list_lookup_insert_ne in Hi, Hj by congruence. eapply Hexcl; eauto.
    + intros x v Hx. destruct (decide (x < length vs)%nat) as [Hlt|Hge].
      * rewrite lookup_app_l in Hx by exact Hlt. now apply Hstore.
      * assert (x = length vs) as ->.
        { apply lookup_lt_Some in Hx. rewrite length_app in Hx. cbn in Hx. lia. }
        rewrite Hnew in Hx. injection Hx as <-.
        split; [now apply new_vehicle_ok|]. split; [exact Hpos|].
        split; [now exists item|]. cbn. exact Hnext.
    + intros x v Hne Hx.
      assert (x < length vs)%nat as Hlt.
      { apply lookup_lt_Some in Hx. rewrite length_app in Hx. cbn in Hx. lia. }
      rewrite lookup_app_l in Hx by exact Hlt.
      rewrite (Hfull x v Hx), (holds_insert cps k cp cp1 x Hk). split.
      * intros (i & c & Hi & Hc). right. exists i, c.
        split; [|now split]. intros ->. congruence.
      * intros [Hc | (i & c & _ & Hi & Hc)]; [|now exists i, c].
        cbn in Hc. congruence.
    + intros x v Hne Hx.
      assert (x < length vs)%nat as Hlt.
      { apply lookup_lt_Some in Hx. rewrite length_app in Hx. cbn in Hx. lia. }
      rewrite lookup_app_l in Hx by exact Hlt. now apply (Hcharged x v).
  - destruct Hwf as [Hident Href Hexcl Hstore Hfull Hcharged].
    apply isAvailable_false in Hav as [r Hr].
    pose proof (Href k cp r Hk Hr) as Hlt.
    destruct (lookup_lt_is_Some_2 _ _ Hlt) as [ev Hev].
    assert (length (p_vehicles p1) = length (p_vehicles p)) as Hlen.
    { now destruct (processChargingTick_effect _ _ _ _ _ Hp) as (_ & _ & -> & _). }
    split; [|lia].
    apply (charge_at cps (p_vehicles p) k cp r ev d); try assumption.
    + intros x v _. apply Hfull.
    + intros x v _. apply Hcharged.
Qed.

Lemma visit_all_wf (currentHour : nat) (cps : list Chargepoint) (p : Pass)
    (cps' : list Chargepoint) (p' : Pass) :
  pass_wf cps p -> visit_all currentHour cps p = Ok (cps', p') ->
  pass_wf cps' p'.
Proof.
  apply (visit_all_invariant pass_wf currentHour).
  intros. eapply visit_wf; eauto.
Qed.

End OwnershipProof.

(** ** What a tick adds *)

Section Progress.
Import Config Chargepoint Simulation Invariant Ownership.

Lemma store_le_refl (vs : store) : store_le vs vs.
Proof. intros r ev Hr. exists ev. repeat split; [exact Hr | apply Qle_refl]. Qed.

Lemma store_le_trans (vs1 vs2 vs3 : store) :
  store_le vs1 vs2 -> store_le vs2 vs3 -> store_le vs1 vs3.
Proof.
  intros H12 H23 r ev Hr.
  destruct (H12 r ev Hr) as (ev2 & Hr2 & Hi2 & Hn2 & Hq2).
  destruct (H23 r ev2 Hr2) as (ev3 & Hr3 & Hi3 & Hn3 & Hq3).
  exists ev3. repeat split; [exact Hr3 | congruence | congruence | lra].
Qed.

Lemma store_le_app (vs : store) (ev : Ev.ElectricVehicle) : store_le vs (vs ++ [ev]).
Proof.
  intros r v Hr. exists v. repeat split; [|apply Qle_refl].
  rewrite lookup_app_l; [exact Hr | eapply lookup_lt_Some; eauto].
Qed.

Lemma occupied_app (cps : list Chargepoint) (cp : Chargepoint) :
  occupied (cps ++ [cp]) =
  (occupied cps + if isAvailable cp then 0 else 1)%nat.
Proof.
  induction cps as [|c cps IH]; cbn [app occupied].
  - destruct (isAvailable cp); reflexivity.
  - rewrite IH. destruct (isAvailable c); reflexivity.
Qed.

Lemma occupied_le (cps : list Chargepoint) : (occupied cps <= length cps)%nat.
Proof.
  induction cps as [|c cps IH]; cbn [occupied length]; [lia|].
  destruct (isAvailable c); lia.
Qed.

(** One charge of a held vehicle: the store continues, and the energy
    delivered is between 0 and the rated power over one tick. *)
Lemma processChargingTick_progress (vs : store) (cp : Chargepoint) (r : nat)
    (ev : Ev.ElectricVehicle) (d : Q) (cp' : Chargepoint) (vs' : store) :
  currentEV cp = Some r -> vs !! r = Some ev -> vehicle_ok ev ->
  0 <= powerKw cp ->
  processChargingTick vs cp = (d, cp', vs') ->
  store_le vs vs' /\ 0 <= d /\
  d <= powerKw cp * (1 / Qnat TICKS_PER_HOUR) /\
  d <= Ev.energyNeededKwh ev - Ev.energyReceivedKwh ev.
Proof.
  intros Hcp Hr Hok Hpow Hp.
  rewrite (processChargingTick_occupied vs cp r ev Hcp Hr) in Hp.
  set (amount := powerKw cp * (1 / Qnat TICKS_PER_HOUR)) in *.
  injection Hp as Hd _ Hvs.
  assert (0 <= amount) as Ha.
  { unfold amount. rewrite tick_fraction.
    apply Qmult_le_0_compat; [exact Hpow | discriminate]. }
  destruct (charge_ok ev amount Hok Ha) as [_ Hmin].
  cbn [Ev.charge fst] in Hmin, Hd.
  assert (0 <= d) as Hd0 by (rewrite <- Hd; exact Hmin).
  assert (r < length vs)%nat as Hlt by (eapply lookup_lt_Some; eauto).
  split; [|split; [exact Hd0|split]].
  - intros x v Hx. subst vs'. destruct (decide (x = r)) as [->|Hne].
    + exists (snd (Ev.charge ev amount)).
      rewrite list_lookup_insert_eq by exact Hlt.
      assert (v = ev) as -> by congruence.
      repeat split. cbn [Ev.charge snd Ev.energyReceivedKwh]. lra.
    + exists v. rewrite list_lookup_insert_ne by congruence.
      repeat split; [exact Hx | apply Qle_refl].
  - rewrite <- Hd. apply Q.le_min_l.
  - rewrite <- Hd. apply Q.le_min_r.
Qed.

(** What one visit adds, in a well-formed station. *)
Lemma visit_progress (currentHour : nat) (cps : list Chargepoint) (k : nat)
    (cp : Chargepoint) (p : Pass) (cp' : Chargepoint) (p' : Pass) :
  pass_wf cps p -> cps !! k = Some cp ->
  visit currentHour cp p = Ok (cp', p') ->
  store_le (p_vehicles p) (p_vehicles p') /\
  totalEnergyDeliveredThisTick p <= totalEnergyDeliveredThisTick p' /\
  totalEnergyDeliveredThisTick p' <= totalEnergyDeliveredThisTick p + (11 # 4) /\
  currentPowerDemandThisTick p' ==
    currentPowerDemandThisTick p +
    Qnat (if isAvailable cp' then 0 else 1) * POWER_PER_CHARGEPOINT_KW.
Proof.
  intros [Hwf Hnext] Hk Hv.
  pose proof (visit_wf currentHour cps k cp p cp' p' (conj Hwf Hnext) Hk Hv)
    as [Hwf' _].
  assert (powerKw cp' = POWER_PER_CHARGEPOINT_KW) as Hrated'.
  { apply (wf_ident _ _ Hwf' k cp').
    apply list_lookup_insert_eq. eapply lookup_lt_Some; eauto. }
  destruct (wf_ident _ _ Hwf k cp Hk) as [_ Hrated].
  assert (0 <= powerKw cp) as Hpow by (rewrite Hrated; discriminate).
  assert (powerKw cp * (1 / Qnat TICKS_PER_HOUR) == 11 # 4) as Hamount
    by (rewrite Hrated; reflexivity).
  destruct (visit_shape _ _ _ _ _ Hv) as (p1 & Ha & Hvs & _ & _ & He & Hpw).
  rewrite Hvs, He, Hpw. clear Hv Hvs He Hpw.
  destruct (arrive_or_charge_shape _ _ _ _ _ Ha)
    as (HP & [(Hav & -> & Hvs & _ & He) |
              [(Hav & item & d & Hin & Hpos & Hp & _ & He) |
               (Hav & d & Hp & _ & He)]]); rewrite HP.
  - rewrite Hvs, He, Hav. split; [apply store_le_refl|].
    split; [apply Qle_refl|]. split; [lra|]. change (Qnat 0) with 0. ring.
  - set (vs := p_vehicles p) in *.
    set (new := Ev.new (p_nextEvId p) (value item / 100 * KWH_PER_100KM)) in *.
    assert ((vs ++ [new]) !! length vs = Some new) as Hnew.
    { rewrite lookup_app_r, Nat.sub_diag by lia. reflexivity. }
    destruct (processChargingTick_progress (vs ++ [new])
                {| id := id cp; powerKw := powerKw cp;
                   currentEV := Some (length vs) |}
                (length vs) new d cp' (p_vehicles p1)
                eq_refl Hnew (new_vehicle_ok _ _ Hpos) Hpow Hp)
      as (Hle & Hd0 & Hd1 & _).
    cbn [powerKw] in Hd1. rewrite Hamount in Hd1. rewrite He.
    split; [eapply store_le_trans; [apply store_le_app | exact Hle]|].
    split; [lra|]. split; [lra|].
    destruct (isAvailable cp'); [change (Qnat 0) with 0; ring|].
    rewrite Hrated'. change (Qnat 1) with 1. ring.
  - apply isAvailable_false in Hav as [r Hr].
    pose proof (wf_ref _ _ Hwf k cp r Hk Hr) as Hlt.
    destruct (lookup_lt_is_Some_2 _ _ Hlt) as [ev Hev].
    destruct (wf_store _ _ Hwf r ev Hev) as (Hok & _).
    destruct (processChargingTick_progress _ _ r ev d cp' _ Hr Hev Hok Hpow Hp)
      as (Hle & Hd0 & Hd1 & _).
    rewrite Hamount in Hd1. rewrite He.
    split; [exact Hle|]. split; [lra|]. split; [lra|].
    destruct (isAvailable cp'); [change (Qnat 0) with 0; ring|].
    rewrite Hrated'. change (Qnat 1) with 1. ring.
Qed.

(** An invariant that may speak of how many chargepoints have been visited:
    [I k] before position [k] is visited, [I (k + 1)] after. *)
Lemma visit_all_invariant_at (I : nat -> list Chargepoint -> Pass -> Prop)
    (currentHour : nat) :
  (forall cps k cp p cp' p',
      I k cps p -> cps !! k = Some cp ->
      visit currentHour cp p = Ok (cp', p') -> I (S k) (<[k := cp']> cps) p') ->
  forall cps p cps' p',
    I O cps p -> visit_all currentHour cps p = Ok (cps', p') ->
    I (length cps) cps' p' /\ length cps' = length cps.
Proof.
  intros Hstep.
  assert (forall rest pre p rest' p',
             I (length pre) (pre ++ rest) p ->
             visit_all currentHour rest p = Ok (rest', p') ->
             I (length pre + length rest)%nat (pre ++ rest') p' /\
             length rest' = length rest) as Hgen.
  { induction rest as [|cp rest IH]; intros pre p rest' p' HI; cbn [visit_all].
    - intros [= <- <-]. cbn [length]. now rewrite Nat.add_0_r.
    - destruct (visit currentHour cp p) as [[cp1 p1]|e] eqn:Ev; cbn [bind];
        [|discriminate].
      destruct (visit_all currentHour rest p1) as [[rest1 p2]|e] eqn:Er;
        cbn [bind]; [|discriminate].
      intros [= <- <-].
      pose proof (Hstep (pre ++ cp :: rest) (length pre) cp p cp1 p1 HI
                    (list_lookup_middle _ _ _ _ eq_refl) Ev) as H1.
      rewrite insert_app_r_alt, Nat.sub_diag in H1 by lia. cbn in H1.
      specialize (IH (pre ++ [cp1]) p1 rest1 p2).
      rewrite <- !app_assoc, length_app in IH. cbn in IH.
      replace (length pre + 1)%nat with (S (length pre)) in IH by lia.
      destruct (IH H1 Er) as [H2 Hl]. cbn [length].
      split; [|lia].
      now replace (length pre + S (length rest))%nat
        with (S (length pre) + length rest)%nat by lia. }
  intros cps p cps' p' HI Hv. exact (Hgen cps [] p cps' p' HI Hv).
Qed.

(** What a whole pass adds. *)
Lemma visit_all_progress (currentHour : nat) (cps : list Chargepoint) (p : Pass)
    (cps' : list Chargepoint) (p' : Pass) :
  pass_wf cps p -> visit_all currentHour cps p = Ok (cps', p') ->
  pass_wf cps' p' /\ length cps' = length cps /\
  store_le (p_vehicles p) (p_vehicles p') /\
  totalEnergyDeliveredThisTick p <= totalEnergyDeliveredThisTick p' /\
  totalEnergyDeliveredThisTick p' <=
    totalEnergyDeliveredThisTick p + Qnat (length cps) * (11 # 4) /\
  currentPowerDemandThisTick p' ==
    currentPowerDemandThisTick p +
    Qnat (occupied cps') * POWER_PER_CHARGEPOINT_KW.
Proof.
  intros Hwf Hv.
  pose (I := fun (k : nat) (c : list Chargepoint) (q : Pass) =>
    pass_wf c q /\ length c = length cps /\
    store_le (p_vehicles p) (p_vehicles q) /\
    totalEnergyDeliveredThisTick p <= totalEnergyDeliveredThisTick q /\
    totalEnergyDeliveredThisTick q <=
      totalEnergyDeliveredThisTick p + Qnat k * (11 # 4) /\
    currentPowerDemandThisTick q ==
      currentPowerDemandThisTick p +
      Qnat (occupied (take k c)) * POWER_PER_CHARGEPOINT_KW).
  assert (forall c k cp q cp' q',
             I k c q -> c !! k = Some cp ->
             visit currentHour cp q = Ok (cp', q') ->
             I (S k) (<[k := cp']> c) q') as Hstep.
  { intros c k cp q cp' q' (G1 & G2 & G3 & G4 & G5 & G6) Hk Hvis.
    destruct (visit_progress currentHour c k cp q cp' q' G1 Hk Hvis)
      as (F1 & F2 & F3 & F4).
    assert (k < length c)%nat as Hklt by (eapply lookup_lt_Some; eauto).
    split; [eapply visit_wf; eauto|]. split; [now rewrite length_insert|].
    split; [eapply store_le_trans; eauto|]. split; [lra|].
    split; [rewrite Qnat_S; lra|].
    rewrite F4, G6.
    rewrite (take_S_r (<[k := cp']> c) k cp')
      by (now apply list_lookup_insert_eq).
    rewrite take_insert_ge by lia. rewrite occupied_app.
    destruct (isAvailable cp').
    + rewrite Nat.add_0_r. change (Qnat 0) with 0. ring.
    + replace (occupied (take k c) + 1)%nat with (S (occupied (take k c))) by lia.
      change (Qnat 1) with 1. rewrite Qnat_S. ring. }
  assert (I O cps p) as Hinit.
  { split; [exact Hwf|]. split; [reflexivity|]. split; [apply store_le_refl|].
    split; [apply Qle_refl|].
    change (take 0 cps) with (@nil Chargepoint). cbn [occupied].
    change (Qnat 0) with 0. split; [lra | ring]. }
  destruct (visit_all_invariant_at I currentHour Hstep cps p cps' p' Hinit Hv)
    as [(H1 & H2 & H3 & H4 & H5 & H6) Hlen].
  split; [exact H1|]. split; [exact Hlen|]. split; [exact H3|].
    split; [exact H4|]. split; [exact H5|].
    rewrite H6. rewrite <- Hlen, firstn_all. reflexivity.
Qed.

End Progress.

(** ** The engine at every tick boundary *)

Section Engine.
Import Config Chargepoint Simulation Invariant Ownership.

(** What [step] is made of. *)
Lemma step_inv (sim : EVChargingSimulation) (tick : nat)
    (sim' : EVChargingSimulation) :
  step sim tick = Ok sim' ->
  exists p',
    visit_all ((tick mod (HOURS_PER_DAY * TICKS_PER_HOUR)) / TICKS_PER_HOUR)
      (Station.chargepoints (station sim))
      {| p_random := randomGenerator sim;
         p_nextEvId := nextEvId sim;
         p_vehicles := vehicles sim;
         totalEnergyDeliveredThisTick := 0;
         currentPowerDemandThisTick := 0 |} =
    Ok (Station.chargepoints (station sim'), p') /\
    vehicles sim' = p_vehicles p' /\ nextEvId sim' = p_nextEvId p' /\
    randomGenerator sim' = p_random p' /\
    stats sim' =
      Statistics.recordTickData (stats sim)
        (totalEnergyDeliveredThisTick p') (currentPowerDemandThisTick p') /\
    numChargepoints sim' = numChargepoints sim /\
    maxTicksToSimulate sim' = maxTicksToSimulate sim.
Proof.
  unfold step. destruct (visit_all _ _ _) as [[cps' p']|e]; cbn [bind];
    [|discriminate].
  intros [= <-]. exists p'. now repeat split.
Qed.

(** One tick in a well-formed engine. *)
Lemma step_progress (sim : EVChargingSimulation) (tick : nat)
    (sim' : EVChargingSimulation) :
  engine_wf sim -> step sim tick = Ok sim' ->
  engine_wf sim' /\ numChargepoints sim' = numChargepoints sim /\
  store_le (vehicles sim) (vehicles sim') /\
  Statistics.totalEnergyConsumedKwh (stats sim) <=
    Statistics.totalEnergyConsumedKwh (stats sim') /\
  Statistics.totalEnergyConsumedKwh (stats sim') <=
    Statistics.totalEnergyConsumedKwh (stats sim) +
    Qnat (numChargepoints sim) * (11 # 4) /\
  exists pw,
    pw == Qnat (occupied (Station.chargepoints (station sim'))) *
          POWER_PER_CHARGEPOINT_KW /\
    Statistics.actualMaxPowerDemandKw (stats sim') =
      if Qltb (Statistics.actualMaxPowerDemandKw (stats sim)) pw
      then pw else Statistics.actualMaxPowerDemandKw (stats sim).
Proof.
  intros (Hwf & Hnext & Hlen) Hstep.
  destruct (step_inv sim tick sim' Hstep)
    as (p' & Hv & Hvs & Hn & _ & Hst & Hnum & _).
  assert (pass_wf (Station.chargepoints (station sim))
            {| p_random := randomGenerator sim;
               p_nextEvId := nextEvId sim;
               p_vehicles := vehicles sim;
               totalEnergyDeliveredThisTick := 0;
               currentPowerDemandThisTick := 0 |}) as Hpass
    by (split; [exact Hwf | exact Hnext]).
  destruct (visit_all_progress _ _ _ _ _ Hpass Hv)
    as ((Hwf' & Hnext') & Hlen' & Hle & He0 & He1 & Hpw).
  cbn [p_vehicles totalEnergyDeliveredThisTick currentPowerDemandThisTick]
    in Hle, He0, He1, Hpw.
  split; [|split; [exact Hnum|split; [now rewrite Hvs|]]].
  - unfold engine_wf. rewrite Hvs, Hn, Hnum. split; [exact Hwf'|].
    split; [exact Hnext' | congruence].
  - rewrite Hst, recordTickData_total, <- Hlen.
    split; [lra|]. split; [lra|].
    exists (currentPowerDemandThisTick p'). split; [|reflexivity].
    rewrite Hpw. ring.
Qed.

Lemma new_engine_wf (numChargepoints0 : nat) (options : SimulationOptions) :
  engine_wf (Simulation.new numChargepoints0 options).
Proof.
  unfold engine_wf, Simulation.new.
  cbn [station vehicles nextEvId numChargepoints].
  split; [|split; [reflexivity|]].
  - constructor.
    + intros i cp Hi. unfold Station.new in Hi. cbn [Station.chargepoints] in Hi.
      rewrite list_lookup_fmap in Hi.
      destruct (seq 0 numChargepoints0 !! i) as [x|] eqn:Hx; [|discriminate].
      apply lookup_seq in Hx as [-> _]. cbn in Hi. injection Hi as <-.
      split; reflexivity.
    + intros i cp r Hi Hc. unfold Station.new in Hi. cbn [Station.chargepoints] in Hi.
      rewrite list_lookup_fmap in Hi.
      destruct (seq 0 numChargepoints0 !! i); [|discriminate].
      cbn in Hi. injection Hi as <-. discriminate.
    + intros i j ci cj r Hi _ Hc. unfold Station.new in Hi.
      cbn [Station.chargepoints] in Hi. rewrite list_lookup_fmap in Hi.
      destruct (seq 0 numChargepoints0 !! i); [|discriminate].
      cbn in Hi. injection Hi as <-. discriminate.
    + intros r ev Hr. destruct r; discriminate.
    + intros r ev Hr. destruct r; discriminate.
    + intros r ev Hr. destruct r; discriminate.
  - unfold Station.new; cbn [Station.chargepoints].
    now rewrite length_fmap, length_seq.
Qed.

(** The engine after [k] ticks exists, is well formed, and its statistics
    are bounded by what [k] ticks can deliver and by what the station can
    draw. *)
Lemma run_ticks_wf (numChargepoints0 : nat) (options : SimulationOptions)
    (k : nat) :
  exists sim,
    run_ticks k (Simulation.new numChargepoints0 options) = Ok sim /\
    engine_wf sim /\ numChargepoints sim = numChargepoints0 /\
    Statistics.totalEnergyConsumedKwh (stats sim) <=
      Qnat k * (Qnat numChargepoints0 * (11 # 4)) /\
    (exists m, (m <= numChargepoints0)%nat /\
       Statistics.actualMaxPowerDemandKw (stats sim) ==
       Qnat m * POWER_PER_CHARGEPOINT_KW) /\
    Qnat (occupied (Station.chargepoints (station sim))) *
      POWER_PER_CHARGEPOINT_KW <=
    Statistics.actualMaxPowerDemandKw (stats sim).
Proof.
  induction k as [|k IH]; cbn [run_ticks].
  - eexists. split; [reflexivity|]. split; [apply new_engine_wf|].
    split; [reflexivity|].
    cbn [Simulation.new stats station Statistics.new Statistics.reset
         Statistics.totalEnergyConsumedKwh Statistics.actualMaxPowerDemandKw].
    split; [change (Qnat 0) with 0; lra|]. split.
    + exists 0%nat. split; [lia | reflexivity].
    + assert (occupied (Station.chargepoints (Station.new numChargepoints0)) = 0%nat)
        as ->.
      { unfold Station.new; cbn [Station.chargepoints].
        induction (seq 0 numChargepoints0) as [|x l IHl]; [reflexivity|exact IHl]. }
      change (Qnat 0) with 0. lra.
  - destruct IH as (sim & Hk & Hwf & Hnum & Htot & (m & Hm & Hmax) & Hocc).
    destruct (run_ticks_effect (Simulation.new numChargepoints0 options) k
                (new_engine_ok numChargepoints0 options)) as (sim0 & Hrun0 & Hok & _).
    assert (sim0 = sim) as -> by congruence. clear Hrun0.
    destruct (step_effect sim k Hok) as (sim' & Hrun & _).
    rewrite Hk. cbn [bind]. rewrite Hrun.
    destruct (step_progress sim k sim' Hwf Hrun)
      as (Hwf' & Hnum' & _ & _ & Htot' & pw & Hpw & Hmax').
    exists sim'. split; [reflexivity|]. split; [exact Hwf'|].
    split; [congruence|]. rewrite Hnum in Htot'.
    split; [rewrite Qnat_S; lra|].
    assert (occupied (Station.chargepoints (station sim')) <= numChargepoints0)%nat
      as Hle.
    { destruct Hwf' as (_ & _ & Hl). rewrite <- Hnum, <- Hnum', <- Hl.
      apply occupied_le. }
    rewrite Hmax'.
    destruct (Qltb (Statistics.actualMaxPowerDemandKw (stats sim)) pw) eqn:E.
    + split; [eexists; split; [exact Hle | exact Hpw]|]. rewrite Hpw. apply Qle_refl.
    + apply Qltb_ge in E. split; [now exists m|]. rewrite <- Hpw. exact E.
Qed.

End Engine.

(** ** Properties of the engine at every tick boundary *)

Section EngineProperties.
Import Config Chargepoint Simulation Invariant Ownership.

(** X18: after any number of ticks every occupied chargepoint refers to a vehicle
    of the store, and no vehicle is held by two chargepoints. *)
Theorem exclusive_ownership (numChargepoints0 : nat)
    (options : SimulationOptions) (k : nat) :
  exists sim,
    run_ticks k (Simulation.new numChargepoints0 options) = Ok sim /\
    (forall i cp r,
        Station.chargepoints (station sim) !! i = Some cp ->
        currentEV cp = Some r -> exists ev, vehicles sim !! r = Some ev) /\
    (forall i j ci cj r,
        Station.chargepoints (station sim) !! i = Some ci ->
        Station.chargepoints (station sim) !! j = Some cj ->
        currentEV ci = Some r -> currentEV cj = Some r -> i = j).
Proof.
  destruct (run_ticks_wf numChargepoints0 options k)
    as (sim & Hrun & (Hwf & _) & _).
  exists sim. split; [exact Hrun|]. split.
  - intros i cp r Hi Hc. apply lookup_lt_is_Some_2.
    exact (wf_ref _ _ Hwf i cp r Hi Hc).
  - exact (wf_excl _ _ Hwf).
Qed.

(** X19: after any number of ticks a vehicle is held by a chargepoint exactly
    when it is not fully charged: no vehicle is let go before it is full,
    and no full vehicle keeps a chargepoint into the next tick. *)
Theorem held_iff_not_full (numChargepoints0 : nat)
    (options : SimulationOptions) (k : nat) :
  exists sim,
    run_ticks k (Simulation.new numChargepoints0 options) = Ok sim /\
    forall r ev, vehicles sim !! r = Some ev ->
      (Ev.isFullyCharged ev = false <->
       holds (Station.chargepoints (station sim)) r).
Proof.
  destruct (run_ticks_wf numChargepoints0 options k)
    as (sim & Hrun & (Hwf & _) & _).
  exists sim. split; [exact Hrun | exact (wf_full _ _ Hwf)].
Qed.

(** X20: after any number of ticks the station still has [numChargepoints]
    chargepoints, the one at index [i] with id [i] and the rated power. *)
Theorem station_stable (numChargepoints0 : nat)
    (options : SimulationOptions) (k : nat) :
  exists sim,
    run_ticks k (Simulation.new numChargepoints0 options) = Ok sim /\
    Station.getTotalChargepoints (station sim) = numChargepoints0 /\
    forall i cp, Station.chargepoints (station sim) !! i = Some cp ->
      id cp = i /\ powerKw cp = POWER_PER_CHARGEPOINT_KW.
Proof.
  destruct (run_ticks_wf numChargepoints0 options k)
    as (sim & Hrun & (Hwf & _ & Hlen) & Hnum & _).
  exists sim. split; [exact Hrun|]. split.
  - unfold Station.getTotalChargepoints. congruence.
  - exact (wf_ident _ _ Hwf).
Qed.

Lemma demanded_bounds (ev : Ev.ElectricVehicle) :
  demanded ev -> 0 < Ev.energyNeededKwh ev ->
  9 # 10 <= Ev.energyNeededKwh ev /\ Ev.energyNeededKwh ev <= 54.
Proof.
  intros (item & Hin & ->) Hpos. unfold CHARGING_DEMAND_KM_DISTRIBUTION_T2 in Hin.
  repeat (apply elem_of_cons in Hin as [-> | Hin]); [.. | inversion Hin];
    cbn [value] in *;
    first [ split; apply Qle_bool_iff; reflexivity
          | exfalso; apply (Qlt_not_le _ _ Hpos); apply Qle_bool_iff; reflexivity ].
Qed.

(** X21: after any number of ticks every vehicle of the store has received more
    than 0, since it was charged in the tick it arrived, and at most its
    need; its need is a positive entry of the demand table converted at
    18 kWh per 100 km, so between 0.9 and 54 kWh. *)
Theorem vehicles_within_need (numChargepoints0 : nat)
    (options : SimulationOptions) (k : nat) :
  exists sim,
    run_ticks k (Simulation.new numChargepoints0 options) = Ok sim /\
    forall r ev, vehicles sim !! r = Some ev ->
      0 < Ev.energyReceivedKwh ev /\
      Ev.energyReceivedKwh ev <= Ev.energyNeededKwh ev /\
      demanded ev /\
      9 # 10 <= Ev.energyNeededKwh ev /\ Ev.energyNeededKwh ev <= 54.
Proof.
  destruct (run_ticks_wf numChargepoints0 options k)
    as (sim & Hrun & (Hwf & _) & _).
  exists sim. split; [exact Hrun|]. intros r ev Hr.
  destruct (wf_store _ _ Hwf r ev Hr) as ([_ H1] & Hpos & Hdem & _).
  split; [exact (wf_charged _ _ Hwf r ev Hr)|].
  split; [exact H1|]. split; [exact Hdem|].
  now apply demanded_bounds.
Qed.

(** X22: from one tick to the next the store only grows, and a vehicle already
    in it keeps its position, id and need and loses no energy. *)
Theorem vehicles_only_gain (numChargepoints0 : nat)
    (options : SimulationOptions) (k : nat) :
  exists sim sim',
    run_ticks k (Simulation.new numChargepoints0 options) = Ok sim /\
    run_ticks (S k) (Simulation.new numChargepoints0 options) = Ok sim' /\
    store_le (vehicles sim) (vehicles sim') /\
    (length (vehicles sim) <= length (vehicles sim'))%nat.
Proof.
  destruct (run_ticks_wf numChargepoints0 options k)
    as (sim & Hrun & Hwf & _).
  destruct (run_ticks_wf numChargepoints0 options (S k))
    as (sim' & Hrun' & _).
  exists sim, sim'. split; [exact Hrun|]. split; [exact Hrun'|].
  cbn [run_ticks] in Hrun'. rewrite Hrun in Hrun'. cbn [bind] in Hrun'.
  destruct (step_progress sim k sim' Hwf Hrun') as (_ & _ & Hle & _).
  split; [exact Hle|].
  destruct (length (vehicles sim)) as [|n] eqn:En; [lia|].
  destruct (lookup_lt_is_Some_2 (vehicles sim) n ltac:(lia)) as [ev Hev].
  destruct (Hle n ev Hev) as (ev' & Hev' & _).
  apply lookup_lt_Some in Hev'. lia.
Qed.

(** X23: after [k] ticks the energy total is at most what [numChargepoints]
    chargepoints deliver in [k] ticks at 2.75 kWh per tick each. *)
Theorem total_energy_bounded (numChargepoints0 : nat)
    (options : SimulationOptions) (k : nat) :
  exists sim,
    run_ticks k (Simulation.new numChargepoints0 options) = Ok sim /\
    Statistics.totalEnergyConsumedKwh (stats sim) <=
      Qnat k * (Qnat numChargepoints0 * (11 # 4)).
Proof.
  destruct (run_ticks_wf numChargepoints0 options k)
    as (sim & Hrun & _ & _ & Htot & _).
  exists sim. split; [exact Hrun | exact Htot].
Qed.

(** X24: after any number of ticks the recorded peak is the rated power times a
    whole number of chargepoints, at most [numChargepoints] and at least the
    number occupied right now. *)
Theorem peak_whole_chargepoints (numChargepoints0 : nat)
    (options : SimulationOptions) (k : nat) :
  exists sim,
    run_ticks k (Simulation.new numChargepoints0 options) = Ok sim /\
    exists m,
      (occupied (Station.chargepoints (station sim)) <= m <= numChargepoints0)%nat /\
      Statistics.actualMaxPowerDemandKw (stats sim) ==
        Qnat m * POWER_PER_CHARGEPOINT_KW.
Proof.
  destruct (run_ticks_wf numChargepoints0 options k)
    as (sim & Hrun & _ & _ & _ & (m & Hm & Hmax) & Hocc).
  exists sim. split; [exact Hrun|]. exists m. split; [|exact Hmax].
  split; [|exact Hm]. rewrite Hmax in Hocc.
  apply Qmult_le_r in Hocc; [|reflexivity].
  unfold Qnat in Hocc. rewrite <- Zle_Qle in Hocc. lia.
Qed.

(** X25: with no chargepoints a run of any length hands the engine back as it
    was built: no draw is taken, no vehicle created, both statistics 0. *)
Theorem zero_chargepoints (options : SimulationOptions) (k : nat) :
  run_ticks k (Simulation.new 0 options) = Ok (Simulation.new 0 options).
Proof.
  induction k as [|k IH]; cbn [run_ticks]; [reflexivity|].
  rewrite IH. reflexivity.
Qed.

(** X26: the hour of day computed from a tick is below 24, so the arrival table
    always has an entry for it. *)
Theorem hour_in_table (tick : nat) :
  let currentHour :=
    ((tick mod (HOURS_PER_DAY * TICKS_PER_HOUR)) / TICKS_PER_HOUR)%nat in
  (currentHour < 24)%nat /\
  exists prob, ARRIVAL_PROBABILITY_PER_HOUR_T1 !! currentHour = Some prob.
Proof.
  cbn zeta.
  assert ((tick mod (HOURS_PER_DAY * TICKS_PER_HOUR)) / TICKS_PER_HOUR < 24)%nat
    as Hlt.
  { change (HOURS_PER_DAY * TICKS_PER_HOUR)%nat with 96%nat.
    change TICKS_PER_HOUR with 4%nat.
    pose proof (Nat.mod_upper_bound tick 96 ltac:(lia)) as Hm.
    apply Nat.Div0.div_lt_upper_bound. lia. }
  split; [exact Hlt|]. apply lookup_lt_is_Some_2. exact Hlt.
Qed.

End EngineProperties.

(** ** More on the random stream *)

Section RandomStreamMore.
Import Random.

Lemma stream_in_range_witness :
  in_range (new 0) /\
  in_range (after 3 (new 0)) /\
  0 <= fst (next (after 3 (new 0))) /\
  fst (next (after 3 (new 0))) < 1.
Proof.
  apply (stream_in_range 0 3). discriminate.
Defined.

(** X2: within [1, 2147483646] the step of the generator is one to one: two
    registers that give the same draw are the same register, so two streams
    never merge. *)
Theorem next_injective (g1 g2 : SeededRandom) :
  in_range g1 -> in_range g2 ->
  fst (next g1) == fst (next g2) -> g1 = g2.
Proof.
  unfold in_range. destruct g1 as [s1], g2 as [s2]. cbn [seed next fst].
  intros H1 H2 Heq. rewrite !draw_fraction in Heq.
  unfold Qeq in Heq; cbn [Qnum Qden] in Heq.
  rewrite !Z.rem_mod_nonneg in Heq by lia.
  assert ((s1 * 16807) mod 2147483647 = (s2 * 16807) mod 2147483647)%Z as Hm by lia.
  assert (((s1 - s2) * 16807) mod 2147483647 = 0)%Z as Hz.
  { rewrite Z.mul_sub_distr_r, Zminus_mod, Hm, Z.sub_diag. reflexivity. }
  apply Z.mod_divide in Hz; [|lia]. rewrite Z.mul_comm in Hz.
  apply Z.gauss in Hz; [|exact modulus_coprime].
  destruct Hz as [q Hq]. f_equal. nia.
Qed.

Lemma next_injective_witness :
  {| seed := 16807 |} = snd (next (new 1)).
Proof.
  apply next_injective.
  - unfold in_range; cbn; lia.
  - apply next_in_range. apply new_nonneg_in_range. lia.
  - reflexivity.
Defined.

(** X3: with equal bounds [nextInt(min, min)] returns [min], whatever the
    register. *)
Theorem nextInt_equal_bounds (g : SeededRandom) (min : Z) :
  fst (nextInt g min min) = min.
Proof.
  unfold nextInt. destruct (next g) as [r g']; cbn [fst].
  rewrite Z.sub_diag.
  assert (Qfloor (r * inject_Z 0) = 0%Z) as ->; [|lia].
  unfold Qfloor, Qmult, inject_Z; cbn [Qnum Qden].
  rewrite Z.mul_0_r. reflexivity.
Qed.

(** X4: with the bounds reversed, [max < min] within 2^31 of zero, the result
    of [nextInt] lies in [max, min]; it is [min] exactly when the draw is 0,
    that is when the register has moved to 1, as it does from 1407677000;
    after every other draw it is below [min], which is therefore an upper
    bound that is reached and not a lower bound. *)
Theorem nextInt_reversed_bounds (g : SeededRandom) (min max : Z) :
  in_range g -> (- 2147483648 <= max)%Z -> (max < min)%Z ->
  (min <= 2147483648)%Z ->
  (max <= fst (nextInt g min max) <= min)%Z /\
  (fst (nextInt g min max) = min <-> seed (snd (next g)) = 1%Z) /\
  (seed (snd (next g)) <> 1%Z -> (fst (nextInt g min max) < min)%Z) /\
  in_range {| seed := 1407677000 |} /\
  fst (nextInt {| seed := 1407677000 |} min max) = min.
Proof.
  intros Hg _ Hlt _. destruct (next_unit_interval g Hg) as [H0 H1].
  pose proof (next_in_range g Hg) as Hn.
  assert (inject_Z (max - min) < 0) as Hd.
  { rewrite <- (Zlt_Qlt _ 0). lia. }
  assert (inject_Z (max - min) <= -1) as Hd1.
  { rewrite <- (Zle_Qle _ (-1)). lia. }
  assert (fst (nextInt g min max)
          = (Qfloor (fst (next g) * inject_Z (max - min)) + min)%Z) as Hval.
  { unfold nextInt. destruct (next g) as [r g']. reflexivity. }
  set (r := fst (next g)) in *.
  assert (r * inject_Z (max - min) <= 0) as Hhi.
  { assert (r * inject_Z (max - min) == - (r * - inject_Z (max - min))) as Hrw
      by ring.
    assert (0 <= r * - inject_Z (max - min)) as Hnn
      by (apply Qmult_le_0_compat; lra).
    lra. }
  assert (inject_Z (max - min) <= r * inject_Z (max - min)) as Hlo.
  { assert (r * inject_Z (max - min) - inject_Z (max - min) ==
            (1 - r) * - inject_Z (max - min)) as Hrw by ring.
    assert (0 <= (1 - r) * - inject_Z (max - min)) as Hnn
      by (apply Qmult_le_0_compat; lra).
    lra. }
  pose proof (Qfloor_resp_le _ _ Hhi) as Hf1. change (Qfloor 0) with 0%Z in Hf1.
  pose proof (Qfloor_resp_le _ _ Hlo) as Hf0. rewrite Qfloor_Z in Hf0.
  assert (seed (snd (next g)) = 1%Z <-> r == 0) as Hzero.
  { subst r. unfold next; cbn [fst snd seed]. rewrite draw_fraction.
    unfold Qeq; cbn [Qnum Qden]. lia. }
  assert (Qfloor (r * inject_Z (max - min)) = 0%Z <-> r == 0) as Hfloor.
  { split.
    - intros Hz. pose proof (Qfloor_le (r * inject_Z (max - min))) as Hle.
      rewrite Hz in Hle. change (inject_Z 0) with 0 in Hle.
      assert (r * inject_Z (max - min) == 0) as Hp by lra.
      destruct (Qlt_le_dec 0 r) as [Hpos|Hnp]; [|lra].
      assert (0 < r * - inject_Z (max - min)) as Hq
        by (apply Qmult_lt_0_compat; lra).
      assert (r * - inject_Z (max - min) == - (r * inject_Z (max - min))) as Hrw
        by ring.
      lra.
    - intros Hz. rewrite Hz, Qmult_0_l. reflexivity. }
  split; [lia|]. split; [|split; [|split]].
  - rewrite Hval, Hzero, <- Hfloor. lia.
  - intros Hne. rewrite Hval.
    assert (Qfloor (r * inject_Z (max - min)) <> 0%Z) as Hnz
      by (rewrite Hfloor, <- Hzero; exact Hne).
    lia.
  - unfold in_range; cbn [seed]. lia.
  - unfold nextInt, next; cbn [seed fst].
    change (Z.rem (1407677000 * 16807) 2147483647) with 1%Z.
    change (inject_Z (1 - 1) / inject_Z 2147483646) with (0 / inject_Z 2147483646).
    assert (0 / inject_Z 2147483646 * inject_Z (max - min) == 0) as Hz
      by (unfold Qdiv; ring).
    rewrite Hz. reflexivity.
Qed.

Lemma nextInt_reversed_bounds_witness :
  ((5 <= fst (nextInt (new 1) 10 5) <= 10)%Z /\
   (fst (nextInt (new 1) 10 5) = 10%Z <-> seed (snd (next (new 1))) = 1%Z) /\
   (seed (snd (next (new 1))) <> 1%Z -> (fst (nextInt (new 1) 10 5) < 10)%Z) /\
   in_range {| seed := 1407677000 |} /\
   fst (nextInt {| seed := 1407677000 |} 10 5) = 10%Z) /\
  fst (nextInt (new 1) 10 5) = 9%Z.
Proof.
  split; [|reflexivity].
  apply (nextInt_reversed_bounds (new 1) 10 5).
  - apply new_nonneg_in_range. lia.
  - lia.
  - reflexivity.
  - lia.
Defined.

(** The same calls on doubles: [nextInt(10, 5)] returns [min] = 10 from the
    register 1407677000 and 9 from seed 1. *)
Example nextInt_reversed_in_doubles :
  fst (Double.nextInt {| seed := 1407677000 |} 10 5) = 10%float /\
  fst (Double.nextInt (new 1) 10 5) = 9%float.
Proof. split; vm_compute; reflexivity. Qed.

(** Where rounding decides.  The draw after seed 2009703516 is 15/22, which
    as a double is a little below it: [nextInt(0, 22)] is 14 in the program
    and 15 in exact arithmetic.  Past 2^53 the sum rounds: after seed
    703838500 the draw is 0.5 and [nextInt(2^53 + 2, 2^53 + 4)] returns its
    upper argument. *)
Example nextInt_rounding :
  fst (Double.nextInt (new 2009703516) 0 22) = 14%float /\
  fst (nextInt (new 2009703516) 0 22) = 15%Z /\
  fst (Double.nextInt (new 703838500) 0x1.0000000000001p+53 0x1.0000000000002p+53)
    = 0x1.0000000000002p+53%float.
Proof. repeat split; vm_compute; reflexivity. Qed.

(** X5: a seed in (-2147483646, 0] starts the same stream as that seed plus
    2147483646: seed 0 is seed 2147483646, seed -1 is seed 2147483645. *)
Theorem new_nonpositive_seed (seed0 : Z) :
  (-2147483646 < seed0 <= 0)%Z -> new seed0 = new (seed0 + 2147483646).
Proof.
  intros H. unfold new.
  rewrite (Z.rem_small (seed0 + 2147483646)) by lia.
  assert (Z.rem seed0 2147483647 = seed0) as ->.
  { rewrite <- (Z.opp_involutive seed0) at 1. rewrite Z.rem_opp_l' .
    rewrite Z.rem_small by lia. lia. }
  destruct (Z.leb_spec seed0 0); [|lia].
  destruct (Z.leb_spec (seed0 + 2147483646) 0); [lia | reflexivity].
Qed.

Lemma new_nonpositive_seed_witness : new 0 = new 2147483646.
Proof. apply (new_nonpositive_seed 0). lia. Defined.

End RandomStreamMore.

(** ** More on the weighted choice *)

Section WeightedChoiceMore.
Import Config Random Distributions DistributionsSpec.

(** X6: on a non-empty distribution the value returned is the value of one of
    its entries. *)
Theorem choice_is_an_entry (distribution : list DemandDistributionItem)
    (g : SeededRandom) :
  match distribution with
  | [] => True
  | _ :: _ =>
      exists item,
        item ∈ distribution /\
        getWeightedRandomChoice distribution g = Ok (value item, snd (next g))
  end.
Proof.
  destruct distribution as [|item rest]; [exact I|].
  destruct (choice_nonempty item rest g) as (v & Hv & Hch).
  apply chosen_member in Hch as (it & Hin & ->). now exists it.
Qed.

Lemma walk_positive (r : Q) (items : list DemandDistributionItem) :
  forall acc v, acc <= r -> walk r acc items = Some v ->
  exists item, item ∈ items /\ v = value item /\ 0 < probability item.
Proof.
  induction items as [|item rest IH]; intros acc v Hacc; cbn [walk];
    [discriminate|].
  destruct (Qltb r (acc + probability item)) eqn:E.
  - apply Qltb_lt in E. intros [= <-]. exists item.
    split; [apply list_elem_of_here|]. split; [reflexivity | lra].
  - apply Qltb_ge in E. intros Hw.
    destruct (IH _ v E Hw) as (it & Hin & Hv & Hp).
    exists it. split; [now apply list_elem_of_further | now split].
Qed.

(** X7: with a draw that is not negative, the walk never stops at an entry whose
    probability is zero or negative: the value returned belongs to an entry
    of positive probability, or it is the value of the last entry. *)
Theorem choice_skips_zero_probability
    (distribution : list DemandDistributionItem) (g : SeededRandom)
    (v : Q) (g' : SeededRandom) :
  in_range g ->
  getWeightedRandomChoice distribution g = Ok (v, g') ->
  (exists item, item ∈ distribution /\ v = value item /\ 0 < probability item) \/
  (exists item, last distribution = Some item /\ v = value item).
Proof.
  intros Hg. destruct (next_unit_interval g Hg) as [H0 _].
  unfold getWeightedRandomChoice.
  destruct (length distribution =? 0)%nat; [discriminate|].
  destruct (next g) as [r g1]; cbn [fst] in H0.
  destruct (walk r 0 distribution) as [w|] eqn:Hw.
  - intros [= <- <-]. left. exact (walk_positive r distribution 0 w H0 Hw).
  - replace (length distribution - 1)%nat with (pred (length distribution))
      by lia.
    rewrite <- last_lookup.
    destruct (last distribution) as [it|]; [|discriminate].
    intros [= <- <-]. right. now exists it.
Qed.

Lemma choice_skips_zero_probability_witness :
  let d := [ {| value := 7; probability := 0 |};
             {| value := 10; probability := 1 |} ] in
  (exists item, item ∈ d /\ 10 = value item /\ 0 < probability item) \/
  (exists item, last d = Some item /\ 10 = value item).
Proof.
  intros d.
  apply (choice_skips_zero_probability d (new 1) 10 (snd (next (new 1)))).
  - apply new_nonneg_in_range. lia.
  - reflexivity.
Defined.

(** X8: for the configured demand table: the draw yields 0 km exactly when it is
    below 0.3431; the probabilities add up to 0.9997 only, so a draw of 0.9997
    or more runs off the end of the table, and every draw of 0.9703 or more
    yields 300 km. *)
Theorem demand_table_thresholds (g : SeededRandom) :
  let r := fst (next g) in
  exists km,
    getWeightedRandomChoice CHARGING_DEMAND_KM_DISTRIBUTION_T2 g =
      Ok (km, snd (next g)) /\
    (km = 0 <-> r < 3431 # 10000) /\
    (walk r 0 CHARGING_DEMAND_KM_DISTRIBUTION_T2 = None <-> 9997 # 10000 <= r) /\
    (9703 # 10000 <= r -> km = 300).
Proof.
  cbn zeta. unfold getWeightedRandomChoice.
  change (length CHARGING_DEMAND_KM_DISTRIBUTION_T2 =? 0)%nat with false.
  cbv iota. destruct (next g) as [r g']; cbn [fst snd].
  unfold CHARGING_DEMAND_KM_DISTRIBUTION_T2.
  cbn [walk value probability length lookup list_lookup Nat.sub].
  repeat match goal with
         | |- context [Qltb r ?c] =>
             let E := fresh "E" in
             destruct (Qltb r c) eqn:E;
             [apply Qltb_lt in E | apply Qltb_ge in E]
         end;
    eexists; (split; [reflexivity|]);
    (split; [split; [intros H; first [discriminate H | lra] | intros H; first [reflexivity | lra]]|]);
    (split; [split; [intros H; first [discriminate H | lra] | intros H; first [reflexivity | lra]]|]);
    intros H; first [reflexivity | lra].
Qed.

End WeightedChoiceMore.

(** ** More on the vehicle *)

Section VehicleMore.
Import Ev.

(** X9: [charge] does not clamp at 0: whenever the amount offered is at most the
    remaining need, and so whenever it is negative on a vehicle within its
    need, the amount itself is returned and added to [energyReceivedKwh]. *)
Theorem charge_within_room (ev : ElectricVehicle) (amount : Q) :
  amount <= energyNeededKwh ev - energyReceivedKwh ev ->
  fst (charge ev amount) == amount /\
  energyReceivedKwh (snd (charge ev amount)) == energyReceivedKwh ev + amount.
Proof.
  intros H. cbn [charge fst snd energyReceivedKwh].
  rewrite (Q.min_l _ _ H). split; reflexivity.
Qed.

Lemma charge_within_room_witness :
  fst (charge (new 1 10) (-1)) == -1 /\
  energyReceivedKwh (snd (charge (new 1 10) (-1))) == 0 + -1.
Proof.
  apply (charge_within_room (new 1 10) (-1)). cbn. lra.
Defined.

(** X10: on a vehicle with 0 <= received <= needed <= 1000000, an amount that
    covers the remaining need fills the vehicle: [charge] returns the
    remaining need, [needed - received], and the vehicle then reports fully
    charged. *)
Theorem charge_to_full (ev : ElectricVehicle) (amount : Q) :
  0 <= energyReceivedKwh ev ->
  energyReceivedKwh ev <= energyNeededKwh ev ->
  energyNeededKwh ev <= 1000000 ->
  energyNeededKwh ev - energyReceivedKwh ev <= amount ->
  fst (charge ev amount) == energyNeededKwh ev - energyReceivedKwh ev /\
  isFullyCharged (snd (charge ev amount)) = true.
Proof.
  intros _ _ _ H2. unfold isFullyCharged, charge.
  cbn [fst snd energyReceivedKwh energyNeededKwh].
  pose proof (Q.min_r _ _ H2) as Hmin.
  split; [exact Hmin|].
  apply Qle_bool_iff.
  assert (0 <= 1 # 10000) by discriminate. lra.
Qed.

Lemma charge_to_full_witness :
  fst (charge (new 1 10) 15) == energyNeededKwh (new 1 10) - energyReceivedKwh (new 1 10) /\
  isFullyCharged (snd (charge (new 1 10) 15)) = true.
Proof.
  apply (charge_to_full (new 1 10) 15); cbn; lra.
Defined.

(** On doubles the vehicle with need 1 + 3 * 2^-52 that has received
    1.5 * 2^-52 is filled by [charge(5)] in this sense: it is handed the
    room the program computes and reports fully charged, though it has not
    received exactly its need. *)
Example charge_to_full_in_doubles :
  Double.isFullyCharged
    (snd (Double.charge
            {| Double.ev_id := 1;
               Double.energyNeededKwh := 0x1.0000000000003p+0;
               Double.energyReceivedKwh := 0x1.8p-52 |} 5%float)) = true.
Proof. vm_compute. reflexivity. Qed.

(** X11: a vehicle fresh from its constructor counts as fully charged exactly
    when its need is at most 0.0001 kWh. *)
Theorem new_vehicle_full (id0 : nat) (needed : Q) :
  isFullyCharged (new id0 needed) = true <-> needed <= 1 # 10000.
Proof.
  unfold isFullyCharged; cbn [new energyNeededKwh energyReceivedKwh].
  rewrite Qle_bool_iff. split; intros H; lra.
Qed.

End VehicleMore.

(** ** More on the chargepoint and the station *)

Section ChargepointMore.
Import Config Chargepoint Station Invariant Ownership.

(** X12: called with a vehicle, [assignEV] returns true exactly when the
    chargepoint is idle and the need of the vehicle is positive; the
    chargepoint then holds the vehicle and keeps its id and power, and
    otherwise it is handed back as it was.  Called with [null] or
    [undefined] it returns false on an idle chargepoint and throws on an
    occupied one. *)
Theorem assignEV_spec (vehicles : store) (cp : Chargepoint) (ev : nat) :
  assignEV vehicles cp ev =
  match vehicles !! ev with
  | Some v =>
      if isAvailable cp && Qltb 0 (Ev.energyNeededKwh v)
      then Ok (true, {| id := id cp; powerKw := powerKw cp; currentEV := Some ev |})
      else Ok (false, cp)
  | None => if isAvailable cp then Ok (false, cp) else Throw TypeError
  end.
Proof.
  unfold assignEV. destruct (isAvailable cp); cbn [negb andb];
    destruct (vehicles !! ev) as [v|]; try reflexivity.
  destruct (Qltb 0 (Ev.energyNeededKwh v)) eqn:E.
  - apply Qltb_lt in E.
    assert (Qeq_bool (Ev.energyNeededKwh v) 0 = false) as ->.
    { apply not_true_iff_false. intros H. apply Qeq_bool_iff in H. lra. }
    assert (Qle_bool (Ev.energyNeededKwh v) 0 = false) as ->.
    { apply not_true_iff_false. intros H. apply Qle_bool_iff in H. lra. }
    reflexivity.
  - apply Qltb_ge in E. apply Qle_bool_iff in E. rewrite E.
    now rewrite orb_true_r.
Qed.

(** X13: [processChargingTick] never changes the id or the power of the
    chargepoint nor the length of the store, and leaves every vehicle the
    chargepoint does not hold as it was; on an idle chargepoint it returns 0
    and changes nothing at all. *)
Theorem processChargingTick_frame (vehicles : store) (cp : Chargepoint) :
  let cp' := snd (fst (processChargingTick vehicles cp)) in
  let vehicles' := snd (processChargingTick vehicles cp) in
  id cp' = id cp /\ powerKw cp' = powerKw cp /\
  length vehicles' = length vehicles /\
  (forall i, currentEV cp <> Some i -> vehicles' !! i = vehicles !! i) /\
  (isAvailable cp = true -> processChargingTick vehicles cp = (0, cp, vehicles)).
Proof.
  cbn zeta. unfold processChargingTick, isAvailable.
  destruct (currentEV cp) as [r|] eqn:Hcp;
    [|cbn [fst snd]; auto 10].
  destruct (vehicles !! r) as [ev|] eqn:Hr.
  2:{ cbn [fst snd]. repeat split; auto; discriminate. }
  destruct (Ev.charge ev _) as [d ev'].
  assert (id (releaseEV cp) = id cp /\ powerKw (releaseEV cp) = powerKw cp)
    as [Hi Hp] by (unfold releaseEV; rewrite Hcp; auto).
  destruct (Ev.isFullyCharged ev'); cbn [fst snd];
    (split; [first [exact Hi | reflexivity]|]);
    (split; [first [exact Hp | reflexivity]|]);
    (split; [apply length_insert|]);
    (split; [|discriminate]);
    intros i Hi'; apply list_lookup_insert_ne; congruence.
Qed.

(** X14: after [processChargingTick] on an occupied chargepoint the chargepoint
    still holds its vehicle exactly when the vehicle is not fully charged. *)
Theorem processChargingTick_keeps_iff_not_full (vehicles : store)
    (cp : Chargepoint) (r : nat) (ev : Ev.ElectricVehicle) :
  currentEV cp = Some r -> vehicles !! r = Some ev ->
  let cp' := snd (fst (processChargingTick vehicles cp)) in
  let vehicles' := snd (processChargingTick vehicles cp) in
  exists ev',
    vehicles' !! r = Some ev' /\
    (currentEV cp' = Some r <-> Ev.isFullyCharged ev' = false) /\
    (currentEV cp' = None <-> Ev.isFullyCharged ev' = true).
Proof.
  intros Hcp Hr. cbn zeta.
  rewrite (processChargingTick_occupied vehicles cp r ev Hcp Hr).
  cbn [fst snd].
  set (ev' := snd (Ev.charge ev _)). exists ev'.
  split; [apply list_lookup_insert_eq; eapply lookup_lt_Some; eauto|].
  destruct (Ev.isFullyCharged ev').
  - unfold releaseEV. rewrite Hcp. cbn [currentEV].
    split; split; intros; congruence.
  - rewrite Hcp. split; split; intros; congruence.
Qed.

Lemma processChargingTick_keeps_iff_not_full_witness :
  let cp := {| id := 0; powerKw := 11; currentEV := Some 0%nat |} in
  let vehicles := [Ev.new 1 9] in
  exists ev',
    snd (processChargingTick vehicles cp) !! 0%nat = Some ev' /\
    (currentEV (snd (fst (processChargingTick vehicles cp))) = Some 0%nat <->
     Ev.isFullyCharged ev' = false) /\
    (currentEV (snd (fst (processChargingTick vehicles cp))) = None <->
     Ev.isFullyCharged ev' = true).
Proof.
  intros cp vehicles.
  apply (processChargingTick_keeps_iff_not_full vehicles cp 0 (Ev.new 1 9));
    reflexivity.
Defined.

(** X15: the energy one [processChargingTick] delivers to a vehicle within its
    need is between 0 and the rated power over one tick, and at most what
    the vehicle still lacked. *)
Theorem delivered_bounds (vehicles : store) (cp : Chargepoint) (r : nat)
    (ev : Ev.ElectricVehicle) :
  currentEV cp = Some r -> vehicles !! r = Some ev ->
  vehicle_ok ev -> 0 <= powerKw cp ->
  let delivered := fst (fst (processChargingTick vehicles cp)) in
  0 <= delivered /\
  delivered <= powerKw cp * (1 / Qnat TICKS_PER_HOUR) /\
  delivered <= Ev.energyNeededKwh ev - Ev.energyReceivedKwh ev.
Proof.
  intros Hcp Hr Hok Hpow. cbn zeta.
  destruct (processChargingTick vehicles cp) as [[d cp'] vs'] eqn:Hp.
  destruct (processChargingTick_progress _ _ _ _ _ _ _ Hcp Hr Hok Hpow Hp)
    as (_ & H0 & H1 & H2).
  cbn [fst]. auto.
Qed.

Lemma delivered_bounds_witness :
  let cp := {| id := 0; powerKw := 11; currentEV := Some 0%nat |} in
  let delivered := fst (fst (processChargingTick [Ev.new 1 9] cp)) in
  0 <= delivered /\
  delivered <= 11 * (1 / Qnat TICKS_PER_HOUR) /\
  delivered <= 9 - 0.
Proof.
  intros cp.
  apply (delivered_bounds [Ev.new 1 9] cp 0 (Ev.new 1 9)).
  - reflexivity.
  - reflexivity.
  - apply new_vehicle_ok. reflexivity.
  - discriminate.
Defined.

(** X16: a station fresh from its constructor has [numChargepoints] chargepoints,
    chargepoint [i] idle with id [i] and the rated power;
    [findAvailableChargepoint] returns chargepoint 0, or nothing when there
    are no chargepoints. *)
Theorem new_station_spec (numChargepoints : nat) :
  getTotalChargepoints (Station.new numChargepoints) = numChargepoints /\
  (forall i cp, chargepoints (Station.new numChargepoints) !! i = Some cp <->
                (i < numChargepoints)%nat /\ cp = Chargepoint.new i) /\
  findAvailableChargepoint (Station.new numChargepoints) =
    match numChargepoints with
    | O => None
    | S _ => Some (Chargepoint.new 0)
    end.
Proof.
  split; [|split].
  - unfold getTotalChargepoints, Station.new; cbn [chargepoints].
    now rewrite length_fmap, length_seq.
  - intros i cp. unfold Station.new; cbn [chargepoints].
    rewrite list_lookup_fmap. split.
    + destruct (seq 0 numChargepoints !! i) as [x|] eqn:Hx; [|discriminate].
      apply lookup_seq in Hx as [-> Hlt]. cbn. intros [= <-]. auto.
    + intros [Hlt ->]. rewrite lookup_seq_lt by exact Hlt. reflexivity.
  - destruct numChargepoints; reflexivity.
Qed.

End ChargepointMore.

(** ** More on the statistics *)

Section StatisticsMore.
Import Statistics StatisticsSeries.

Lemma record_all_total (ticks : list (Q * Q)) : forall s,
  totalEnergyConsumedKwh (record_all s ticks) ==
  totalEnergyConsumedKwh s + energy_sum ticks.
Proof.
  induction ticks as [|t ticks IH]; intros s; cbn [record_all foldl energy_sum foldr].
  - ring.
  - fold (record_all (recordTickData s (fst t) (snd t)) ticks).
    fold (energy_sum ticks). rewrite IH, recordTickData_total. ring.
Qed.

Lemma record_all_max (ticks : list (Q * Q)) : forall s,
  let m := actualMaxPowerDemandKw (record_all s ticks) in
  actualMaxPowerDemandKw s <= m /\
  (forall t, t ∈ ticks -> snd t <= m) /\
  (m = actualMaxPowerDemandKw s \/ exists t, t ∈ ticks /\ m = snd t).
Proof.
  induction ticks as [|t ticks IH]; intros s; cbn zeta;
    cbn [record_all foldl].
  - split; [apply Qle_refl|]. split; [|now left]. intros t Ht. inversion Ht.
  - fold (record_all (recordTickData s (fst t) (snd t)) ticks).
    destruct (IH (recordTickData s (fst t) (snd t))) as (H1 & H2 & H3).
    destruct (recordTickData_max s (fst t) (snd t)) as (G1 & G2 & G3).
    cbn zeta in *. split; [lra|]. split.
    + intros u Hu. apply elem_of_cons in Hu as [->|Hu]; [lra | now apply H2].
    + destruct H3 as [H3 | (u & Hu & H3)].
      * rewrite H3. destruct G3 as [-> | ->]; [now left|].
        right. exists t. split; [apply list_elem_of_here | reflexivity].
      * right. exists u. split; [now apply list_elem_of_further | exact H3].
Qed.

(** X17: after any series of ticks recorded from a fresh aggregator the energy
    total is the sum of the energies recorded, and the maximum is the largest
    power recorded or 0 when none is positive: it is at least 0 and at least
    every power recorded, and it is 0 or one of them. *)
Theorem record_all_spec (ticks : list (Q * Q)) :
  let s := record_all Statistics.new ticks in
  totalEnergyConsumedKwh s == energy_sum ticks /\
  0 <= actualMaxPowerDemandKw s /\
  (forall t, t ∈ ticks -> snd t <= actualMaxPowerDemandKw s) /\
  (actualMaxPowerDemandKw s = 0 \/
   exists t, t ∈ ticks /\ actualMaxPowerDemandKw s = snd t).
Proof.
  cbn zeta. split.
  - rewrite record_all_total. cbn. ring.
  - exact (record_all_max ticks Statistics.new).
Qed.

End StatisticsMore.

(** ** The figures derived from a finished run *)

Section DerivedFigures.
Import Config Simulation Invariant Ownership Actions.

(** X27: when the run ends, the number of charging sessions the action reports is
    the number of vehicles the run created. *)
Theorem sessions_are_vehicles (numChargepoints0 : nat)
    (options : SimulationOptions) :
  exists sim,
    run (Simulation.new numChargepoints0 options) = Ok sim /\
    numChargingSessions sim = length (vehicles sim).
Proof.
  unfold run.
  destruct (run_ticks_wf numChargepoints0 options
              (maxTicksToSimulate (Simulation.new numChargepoints0 options)))
    as (sim & Hrun & (_ & Hnext & _) & _).
  exists sim. split; [exact Hrun|].
  unfold numChargingSessions. rewrite Hnext.
  destruct (length (vehicles sim)) as [|n]; [reflexivity|].
  cbn [Nat.ltb Nat.leb]. lia.
Qed.

Lemma Qnat_le (m n : nat) : (m <= n)%nat -> Qnat m <= Qnat n.
Proof. intros H. unfold Qnat. rewrite <- Zle_Qle. lia. Qed.

Lemma Qnat_nonneg (n : nat) : 0 <= Qnat n.
Proof. apply (Qnat_le 0 n). lia. Qed.

(** X28: when the chargepoint power entered in the form is at least the 11 kW the
    engine charges with, the concurrency factor of the action lies between 0
    and 100 percent. *)
Theorem concurrency_factor_percent (params : SimulationInputParameters) :
  POWER_PER_CHARGEPOINT_KW <= chargepointPowerKw params ->
  exists sim,
    run (Simulation.new (p_numChargepoints params) simOptions) = Ok sim /\
    0 <= concurrencyFactor (theoreticalMaxPowerDemandKw params)
           (Statistics.actualMaxPowerDemandKw (stats sim)) /\
    concurrencyFactor (theoreticalMaxPowerDemandKw params)
      (Statistics.actualMaxPowerDemandKw (stats sim)) <= 100.
Proof.
  intros Hpow. unfold run.
  destruct (run_ticks_wf (p_numChargepoints params) simOptions
              (maxTicksToSimulate (Simulation.new (p_numChargepoints params) simOptions)))
    as (sim & Hrun & _ & _ & _ & (m & Hm & Hmax) & _).
  exists sim. split; [exact Hrun|].
  unfold concurrencyFactor, theoreticalMaxPowerDemandKw.
  set (T := Qnat (p_numChargepoints params) * chargepointPowerKw params).
  set (a := Statistics.actualMaxPowerDemandKw (stats sim)) in *.
  destruct (Qltb 0 T) eqn:E; [|split; [apply Qle_refl | discriminate]].
  apply Qltb_lt in E.
  assert (0 <= a) as Ha.
  { rewrite Hmax. apply Qmult_le_0_compat; [apply Qnat_nonneg | discriminate]. }
  assert (a <= T) as HaT.
  { rewrite Hmax. unfold T.
    pose proof (Qnat_le _ _ Hm) as Hle. pose proof (Qnat_nonneg m) as Hm0.
    pose proof (Qnat_nonneg (p_numChargepoints params)) as Hn0.
    assert (0 <= POWER_PER_CHARGEPOINT_KW) as Hp0 by discriminate.
    assert (0 <= (Qnat (p_numChargepoints params) - Qnat m) * POWER_PER_CHARGEPOINT_KW)
      as H1 by (apply Qmult_le_0_compat; lra).
    assert (0 <= Qnat (p_numChargepoints params) *
                 (chargepointPowerKw params - POWER_PER_CHARGEPOINT_KW))
      as H2 by (apply Qmult_le_0_compat; lra).
    assert (Qnat (p_numChargepoints params) * chargepointPowerKw params -
            Qnat m * POWER_PER_CHARGEPOINT_KW ==
            (Qnat (p_numChargepoints params) - Qnat m) * POWER_PER_CHARGEPOINT_KW +
            Qnat (p_numChargepoints params) *
              (chargepointPowerKw params - POWER_PER_CHARGEPOINT_KW)) as H3 by ring.
    lra. }
  assert (0 <= a / T) as H0 by (apply Qle_shift_div_l; [exact E | lra]).
  assert (a / T <= 1) as H1 by (apply Qle_shift_div_r; [exact E | lra]).
  split; lra.
Qed.

Lemma concurrency_factor_percent_witness :
  exists sim,
    run (Simulation.new 20 simOptions) = Ok sim /\
    0 <= concurrencyFactor (Qnat 20 * 11)
           (Statistics.actualMaxPowerDemandKw (stats sim)) /\
    concurrencyFactor (Qnat 20 * 11)
      (Statistics.actualMaxPowerDemandKw (stats sim)) <= 100.
Proof.
  apply (concurrency_factor_percent
           {| p_numChargepoints := 20; arrivalMultiplier := 100;
              carConsumptionKwh100km := 18; chargepointPowerKw := 11 |}).
  apply Qle_refl.
Defined.

Lemma first_months_sum (n : Z) (factors : list Q) :
  forall g perMonth remaining perMonth' remaining' g',
    first_months n factors g perMonth remaining = (perMonth', remaining', g') ->
    length perMonth' = (length perMonth + length factors)%nat /\
    (foldl Z.add 0 perMonth' + remaining' = foldl Z.add 0 perMonth + remaining)%Z.
Proof.
  induction factors as [|f rest IH]; intros g pm rem pm' rem' g'; cbn [first_months].
  - intros [= <- <- <-]. cbn [length]. split; lia.
  - destruct (Random.next g) as [r g1]. intros H.
    destruct (IH _ _ _ _ _ _ H) as [Hl Hs].
    rewrite length_app in Hl. cbn [length] in *. split; [lia|].
    rewrite Hs, foldl_app. cbn [foldl]. lia.
Qed.

(** X29: the monthly breakdown always has 12 entries and they add up to the
    number of charging sessions, with or without sessions. *)
Theorem eventsBreakdown_sums (numChargingSessions0 : nat)
    (chartDataRandom : Random.SeededRandom) :
  let months := perMonth (fst (eventsBreakdown numChargingSessions0 chartDataRandom)) in
  length months = 12%nat /\
  foldl Z.add 0%Z months = Z.of_nat numChargingSessions0.
Proof.
  cbn zeta. unfold eventsBreakdown.
  destruct (0 <? Z.of_nat numChargingSessions0)%Z eqn:Epos.
  2:{ cbn [fst perMonth]. apply Z.ltb_ge in Epos. split; [reflexivity|].
      cbn. lia. }
  destruct (first_months _ _ _ _ _) as [[pm rem] g'] eqn:Ef.
  destruct (first_months_sum _ _ _ _ _ _ _ _ Ef) as [Hl Hs].
  change (length (take 11 normalizedMonthlyFactors)) with 11%nat in Hl.
  cbn [length foldl] in Hl, Hs. cbn [fst perMonth].
  set (n := Z.of_nat numChargingSessions0) in *.
  set (months := pm ++ [Z.max 0 rem]).
  assert (length months = 12%nat) as Hlen
    by (unfold months; rewrite length_app; cbn [length]; lia).
  assert (foldl Z.add 0%Z months = (foldl Z.add 0 pm + Z.max 0 rem)%Z) as Hsum
    by (unfold months; rewrite foldl_app; reflexivity).
  destruct (negb (foldl Z.add 0 months =? n)%Z && (0 <? length months)%nat) eqn:Ec.
  - split; [now rewrite length_alter|].
    rewrite Hlen. unfold months.
    replace (12 - 1)%nat with (length pm + 0)%nat by lia.
    rewrite alter_app_r. cbn [alter list_alter]. rewrite foldl_app.
    cbn [foldl]. fold months. lia.
  - split; [exact Hlen|].
    rewrite Hlen in Ec. cbn [Nat.ltb Nat.leb] in Ec.
    rewrite andb_true_r in Ec. apply negb_false_iff, Z.eqb_eq in Ec. exact Ec.
Qed.

Lemma task1_concurrency (stats : Statistics.SimulationStatistics) :
  t1_concurrencyFactor (task1_validation stats) ==
  Statistics.actualMaxPowerDemandKw stats * (5 # 11).
Proof.
  cbn [task1_validation t1_concurrencyFactor]. unfold concurrencyFactor.
  change (Qnat 20 * POWER_PER_CHARGEPOINT_KW) with (220 # 1).
  change (Qltb 0 (220 # 1)) with true. cbv iota.
  unfold Qdiv. change (/ (220 # 1)) with (1 # 220). ring.
Qed.

Lemma Qle_bool_agree (a b c d : Q) :
  (a <= b <-> c <= d) -> Qle_bool a b = Qle_bool c d.
Proof.
  intros H. destruct (Qle_bool a b) eqn:E1, (Qle_bool c d) eqn:E2; try reflexivity.
  - apply Qle_bool_iff, H, Qle_bool_iff in E1. congruence.
  - apply Qle_bool_iff, H, Qle_bool_iff in E2. congruence.
Qed.

(** X30: the Task 1 validation completes, its theoretical maximum is 220 kW, its
    concurrency factor lies between 0 and 100, and its two hint checks always
    agree: the peak is within [77, 121] kW exactly when the concurrency
    factor is within [35, 55] percent. *)
Theorem task1_hint_checks_agree :
  exists v,
    runAndLogTask1Validation = Ok v /\
    t1_theoreticalMaxPowerDemandKw v == 220 /\
    0 <= t1_concurrencyFactor v /\ t1_concurrencyFactor v <= 100 /\
    isActualMaxPowerInHintRange v = isConcurrencyInHintRange v.
Proof.
  unfold runAndLogTask1Validation, run.
  set (opts := {| opt_seed := Some DEFAULT_SIMULATION_SEED; opt_maxTicks := None |}).
  destruct (run_ticks_wf 20 opts (maxTicksToSimulate (Simulation.new 20 opts)))
    as (sim & Hrun & _ & _ & _ & (m & Hm & Hmax) & _).
  rewrite Hrun. cbn [bind]. eexists. split; [reflexivity|].
  pose proof (task1_concurrency (stats sim)) as Hc.
  set (a := Statistics.actualMaxPowerDemandKw (stats sim)) in *.
  assert (0 <= a /\ a <= 220) as [Ha0 Ha1].
  { rewrite Hmax. pose proof (Qnat_le _ _ Hm) as Hle.
    pose proof (Qnat_nonneg m) as Hm0.
    change (Qnat 20) with 20 in Hle. unfold POWER_PER_CHARGEPOINT_KW.
    split; lra. }
  split; [reflexivity|]. split; [rewrite Hc; lra|]. split; [rewrite Hc; lra|].
  cbn [task1_validation isActualMaxPowerInHintRange isConcurrencyInHintRange].
  fold a. change (concurrencyFactor _ a)
    with (t1_concurrencyFactor (task1_validation (stats sim))).
  f_equal; apply Qle_bool_agree; rewrite Hc; split; intros H; lra.
Qed.

End DerivedFigures.
